(** * zeta.js: the truncated zeta series and its derived display value

    The page script has two functions.  [zeta] sums the reciprocal powers
    [1 / Math.pow(k, s)] in a [for] loop, and [calculate] reads a number from
    the input field ["time"], evaluates [t * zeta(1 + t * 1e-6)] and writes
    the text [E(t) ≈ <E.toFixed(6)>] into the element ["output"].

    JavaScript numbers are IEEE 754 binary64 values; they are modelled by
    Rocq's primitive floats, whose operations are specified by the
    [SpecFloat] functions.  The built-ins the script calls ([parseFloat],
    [Math.pow], [Number.prototype.toFixed], the template literal) follow
    ECMA-262.  Strings are byte strings holding UTF-8 text. *)

From Stdlib Require Import ZArith QArith Qround Qabs Floats String Ascii List Lia Bool.
From Stdlib Require Import DecimalString.
From Stdlib Require Import Qpower DecimalN Lqa.
From stdpp Require Import gmap strings.
Import ListNotations.

Set Warnings "-inexact-float".
Local Open Scope Z_scope.

(** ** Completions

    A call either returns normally, throws, or (in the model only) runs out of
    the fuel that bounds the number of loop tests. *)

Inductive error := TypeError | RangeError.

Inductive completion (A : Type) :=
  | Normal (a : A)
  | Throw (e : error)
  | OutOfFuel.
Arguments Normal {A} a.
Arguments Throw {A} e.
Arguments OutOfFuel {A}.

Definition bind {A B} (c : completion A) (k : A -> completion B) : completion B :=
  match c with
  | Normal a => k a
  | Throw e => Throw e
  | OutOfFuel => OutOfFuel
  end.

Notation "'let?' x ':=' c 'in' k" := (bind c (fun x => k))
  (at level 10, x name, c at level 100, k at level 200).

(** ** Numbers *)

Module Num.

(** The Number value of an integer that is small enough to be exact. *)
Definition of_Z (z : Z) : float :=
  match z with
  | Z0 => 0%float
  | Zpos _ => PrimFloat.of_uint63 (Uint63.of_Z z)
  | Zneg _ => (- PrimFloat.of_uint63 (Uint63.of_Z (- z)))%float
  end.

Definition pow10 (n : Z) : Q := Qpower (10 # 1) n.

(** The real number a finite Number stands for: [(-1)^s * m * 2^e]. *)
Definition SF2Q (x : spec_float) : Q :=
  match x with
  | S754_finite s m e => inject_Z (cond_Zopp s (Zpos m)) * Qpower (2 # 1) e
  | _ => 0
  end.

Definition F2Q (x : float) : Q := SF2Q (Prim2SF x).

(** ECMA-262 6.1.6.1, "the Number value for x": the binary64 value nearest
    to the real [x], ties to even, beyond the largest finite value an
    infinity, and a zero that keeps the sign of [x]. *)
Definition SFround (sx : bool) (num den : positive) : spec_float :=
  let '(m, e, l) := SFdiv_core_binary prec emax (Zpos num) 0 (Zpos den) 0 in
  binary_round_aux prec emax sx m e l.

Definition RoundQ (x : Q) : float :=
  match Qnum x with
  | Z0 => 0%float
  | Zpos p => SF2Prim (SFround false p (Qden x))
  | Zneg p => SF2Prim (SFround true p (Qden x))
  end.

Definition is_finite (x : float) : bool :=
  match Prim2SF x with
  | S754_zero _ | S754_finite _ _ _ => true
  | _ => false
  end.

(** The sign bit is clear and the value is not NaN: [x] is one of
    [+0], a positive finite value, [+Infinity]. *)
Definition SF_nonneg (x : spec_float) : bool :=
  match x with
  | S754_zero false | S754_finite false _ _ | S754_infinity false => true
  | _ => false
  end.

Definition is_nonneg (x : float) : bool := SF_nonneg (Prim2SF x).

(** Among the valid binary64 values, those that are at least 1: their
    exponent is at least [-52], since [1 = 2^52 * 2^-52]. *)
Definition SF_ge1 (x : spec_float) : bool :=
  match x with
  | S754_infinity false => true
  | S754_finite false _ e => -52 <=? e
  | _ => false
  end.

(** An integral Number, and whether it is odd. *)
Definition integral_value (x : float) : option Z :=
  match Prim2SF x with
  | S754_zero _ => Some 0
  | S754_finite s m e =>
      if 0 <=? e then Some (cond_Zopp s (Zpos m * 2 ^ e))
      else if (Zpos m) mod 2 ^ (- e) =? 0 then Some (cond_Zopp s (Zpos m / 2 ^ (- e)))
      else None
  | _ => None
  end.

Definition is_odd_integral (x : float) : bool :=
  match integral_value x with
  | Some z => Z.odd z
  | None => false
  end.

End Num.

(** ** Math.pow

    ECMA-262 6.1.6.1.3, Number::exponentiate.  Steps 1 to 12 fix the result
    for the special operands; step 13 leaves the remaining case (finite
    non-zero base, finite non-zero exponent, and an integral exponent when
    the base is negative) to an implementation-approximated value, which is
    the parameter [approximate_pow] of the model: a total function of the
    two operands, as the engine's power neither throws nor keeps state. *)

Section MathPow.

Variable approximate_pow : float -> float -> float.

Definition Math_pow (base exponent : float) : float :=
  let positive_exponent := (0 <? exponent)%float in
  let odd := Num.is_odd_integral exponent in
  match Prim2SF exponent, Prim2SF base with
  | S754_nan, _ => nan
  | S754_zero _, _ => 1%float
  | _, S754_nan => nan
  | _, S754_infinity false => if positive_exponent then infinity else 0%float
  | _, S754_infinity true =>
      if positive_exponent then (if odd then neg_infinity else infinity)
      else (if odd then neg_zero else 0%float)
  | _, S754_zero false => if positive_exponent then 0%float else infinity
  | _, S754_zero true =>
      if positive_exponent then (if odd then neg_zero else 0%float)
      else (if odd then neg_infinity else infinity)
  | S754_infinity se, S754_finite _ _ _ =>
      match (abs base ?= 1)%float with
      | FGt => if se then 0%float else infinity
      | FLt => if se then infinity else 0%float
      | _ => nan
      end
  | S754_finite _ _ _, S754_finite sb _ _ =>
      match sb, Num.integral_value exponent with
      | true, None => nan
      | _, _ => approximate_pow base exponent
      end
  end.

End MathPow.

(** ** Strings of digits *)

Module Str.

Local Open Scope string_scope.
Local Open Scope Z_scope.

Definition is_digit (c : ascii) : bool :=
  let n := N_of_ascii c in ((48 <=? n) && (n <=? 57))%N.

Definition digit_value (c : ascii) : Z := Z.of_N (N_of_ascii c) - 48.

(** The longest prefix of decimal digits, and what follows it. *)
Fixpoint span_digits (s : string) : string * string :=
  match s with
  | String c r =>
      if is_digit c then let '(d, rest) := span_digits r in (String c d, rest)
      else (EmptyString, s)
  | EmptyString => (EmptyString, EmptyString)
  end.

(** The mathematical value of a string of decimal digits. *)
Fixpoint digits_value_from (acc : Z) (s : string) : Z :=
  match s with
  | String c r => digits_value_from (10 * acc + digit_value c) r
  | EmptyString => acc
  end.

Definition digits_value (s : string) : Z := digits_value_from 0 s.

(** The decimal representation of a non-negative integer; ["0"] for zero. *)
Definition decimal (n : Z) : string := NilZero.string_of_uint (N.to_uint (Z.to_N n)).

Fixpoint zeros (n : nat) : string :=
  match n with
  | O => EmptyString
  | S n' => String "0" (zeros n')
  end.

Definition is_empty (s : string) : bool :=
  match s with EmptyString => true | _ => false end.

Fixpoint take (n : nat) (s : string) : string :=
  match n, s with
  | S n', String c r => String c (take n' r)
  | _, _ => EmptyString
  end.

Fixpoint drop (n : nat) (s : string) : string :=
  match n, s with
  | S n', String c r => drop n' r
  | _, _ => s
  end.

End Str.

(** ** parseFloat

    ECMA-262 19.2.4.  Leading white space and line terminators are removed,
    the longest prefix that is a [StrDecimalLiteral] is taken, and its
    mathematical value is rounded to a Number; with no such prefix the
    result is NaN.  White space outside ASCII is matched in its UTF-8
    encoding.  The mathematical value is rounded exactly, which is one of
    the results RoundMVResult allows for literals of more than 20
    significant digits and the only one for shorter literals. *)

Module Parse.

Local Open Scope string_scope.
Local Open Scope Z_scope.

Definition ws1 (c : ascii) : bool :=
  match N_of_ascii c with
  | 9 | 10 | 11 | 12 | 13 | 32 => true
  | _ => false
  end%N.

(** U+00A0. *)
Definition ws2 (c1 c2 : ascii) : bool :=
  match N_of_ascii c1, N_of_ascii c2 with
  | 194, 160 => true
  | _, _ => false
  end%N.

(** U+1680, U+2000 to U+200A, U+2028, U+2029, U+202F, U+205F, U+3000, U+FEFF. *)
Definition ws3 (c1 c2 c3 : ascii) : bool :=
  match N_of_ascii c1, N_of_ascii c2, N_of_ascii c3 with
  | 225, 154, 128 => true
  | 226, 128, n => ((128 <=? n) && (n <=? 138)) || (n =? 168) || (n =? 169) || (n =? 175)
  | 226, 129, 159 => true
  | 227, 128, 128 => true
  | 239, 187, 191 => true
  | _, _, _ => false
  end%N.

Fixpoint TrimStart (s : string) : string :=
  match s with
  | String c1 r1 =>
      if ws1 c1 then TrimStart r1
      else match r1 with
           | String c2 r2 =>
               if ws2 c1 c2 then TrimStart r2
               else match r2 with
                    | String c3 r3 => if ws3 c1 c2 c3 then TrimStart r3 else s
                    | EmptyString => s
                    end
           | EmptyString => s
           end
  | EmptyString => s
  end.

Definition split_sign (s : string) : bool * string :=
  match s with
  | String c r =>
      if (c =? "+")%char then (false, r)
      else if (c =? "-")%char then (true, r)
      else (false, s)
  | EmptyString => (false, s)
  end.

Definition is_exponent_indicator (c : ascii) : bool :=
  (c =? "e")%char || (c =? "E")%char.

(** The value of the [ExponentPart] at the head of [s], 0 when there is none. *)
Definition exponent_part (s : string) : Z :=
  match s with
  | String c r =>
      if is_exponent_indicator c then
        let '(neg, r') := split_sign r in
        let '(ed, _) := Str.span_digits r' in
        if Str.is_empty ed then 0
        else if neg then - Str.digits_value ed else Str.digits_value ed
      else 0
  | EmptyString => 0
  end.

(** The Number of the longest [StrUnsignedDecimalLiteral] prefix. *)
Definition unsigned_literal (s : string) : option float :=
  if String.prefix "Infinity" s then Some infinity
  else
    let '(ip, r1) := Str.span_digits s in
    let '(fp, r2) :=
      match r1 with
      | String c r => if (c =? ".")%char then Str.span_digits r else (EmptyString, r1)
      | EmptyString => (EmptyString, r1)
      end in
    if Str.is_empty ip && Str.is_empty fp then None
    else
      let e := exponent_part r2 in
      Some (Num.RoundQ (inject_Z (Str.digits_value (ip ++ fp))
                        * Num.pow10 (e - Z.of_nat (String.length fp)))).

Definition parseFloat (input : string) : float :=
  let trimmed := TrimStart input in
  let '(neg, body) := split_sign trimmed in
  match unsigned_literal body with
  | None => nan
  | Some a => if neg then (- a)%float else a
  end.

End Parse.

(** ** Number to string

    ECMA-262 6.1.6.1.20, Number::toString (radix 10), and 21.1.3.3,
    Number.prototype.toFixed. *)

Module Fmt.

Local Open Scope string_scope.
Local Open Scope Z_scope.

(** For a positive rational [q], the integer [n] with
    [10^(n-1) <= q < 10^n]. *)
Definition decade (q : Q) : Z :=
  let ln := Z.of_nat (String.length (Str.decimal (Qnum q))) in
  let ld := Z.of_nat (String.length (Str.decimal (Zpos (Qden q)))) in
  if Qle_bool (Num.pow10 (ln - ld)) q then ln - ld + 1 else ln - ld.

Definition Qabs_diff (a b : Q) : Q := Qabs (a - b).

(** A candidate [(n, s)] for [k] digits: [10^(k-1) <= s < 10^k] and the
    Number value for [s * 10^(n-k)] is [x]. *)
Definition valid_candidate (x : float) (k : Z) (c : Z * Z) : bool :=
  let '(n, s) := c in
  (10 ^ (k - 1) <=? s) && (s <? 10 ^ k)
  && PrimFloat.Leibniz.eqb (Num.RoundQ (inject_Z s * Num.pow10 (n - k))) x.

Definition candidate_value (k : Z) (c : Z * Z) : Q :=
  inject_Z (snd c) * Num.pow10 (fst c - k).

(** Of two candidates the one closer to [xq]; at equal distance the one
    whose [s] is even. *)
Definition closer (xq : Q) (k : Z) (c1 c2 : Z * Z) : Z * Z :=
  match Qabs_diff (candidate_value k c1) xq ?= Qabs_diff (candidate_value k c2) xq with
  | Lt => c1
  | Gt => c2
  | Eq => if Z.even (snd c1) then c1 else c2
  end%Q.

Definition candidates (xq : Q) (n0 k : Z) : list (Z * Z) :=
  let at_decade n :=
    let s := Qfloor (xq / Num.pow10 (n - k)) in [(n, s); (n, s + 1)] in
  at_decade n0 ++ at_decade (n0 + 1).

Definition best_candidate (x : float) (xq : Q) (n0 k : Z) : option (Z * Z) :=
  fold_left (fun best c =>
               if valid_candidate x k c then
                 match best with
                 | None => Some c
                 | Some b => Some (closer xq k b c)
                 end
               else best)
            (candidates xq n0 k) None.

(** Step 5: the least [k >= 1] that has a candidate, tried upwards from
    [k]; 17 digits identify every binary64 value. *)
Fixpoint shortest (fuel : nat) (x : float) (xq : Q) (n0 k : Z) : option (Z * Z * Z) :=
  match fuel with
  | O => None
  | S fuel' =>
      match best_candidate x xq n0 k with
      | Some (n, s) => Some (n, k, s)
      | None => shortest fuel' x xq n0 (k + 1)
      end
  end.

(** Steps 6 to 10, for a positive finite [x]. *)
Definition toString_positive (x : float) : string :=
  let xq := Num.F2Q x in
  match shortest 17 x xq (decade xq) 1 with
  | None => EmptyString
  | Some (n, k, s) =>
      let digits := Str.decimal s in
      if (-5 <=? n) && (n <=? 21) then
        if k <=? n then digits ++ Str.zeros (Z.to_nat (n - k))
        else if 0 <? n then
          Str.take (Z.to_nat n) digits ++ "." ++ Str.drop (Z.to_nat n) digits
        else "0." ++ Str.zeros (Z.to_nat (- n)) ++ digits
      else
        let c := n - 1 in
        let csign := if c <? 0 then "-" else "+" in
        let mantissa :=
          if k =? 1 then digits
          else Str.take 1 digits ++ "." ++ Str.drop 1 digits in
        mantissa ++ "e" ++ csign ++ Str.decimal (Z.abs c)
  end.

Definition Number_toString (x : float) : string :=
  match Prim2SF x with
  | S754_nan => "NaN"
  | S754_zero _ => "0"
  | S754_infinity false => "Infinity"
  | S754_infinity true => "-Infinity"
  | S754_finite false _ _ => toString_positive x
  | S754_finite true _ _ => "-" ++ toString_positive (- x)%float
  end.

(** toFixed, steps 9 to 12 for a non-negative real [x] below [10^21]:
    [n] is the integer nearest to [x * 10^f], the larger one of two, and
    its digits are padded to [f + 1] places and split before the last
    [f]. *)
Definition fixed_digits (x : Q) (f : Z) : string :=
  let n := Qfloor (x * Num.pow10 f + (1 # 2)) in
  let m := if n =? 0 then "0" else Str.decimal n in
  if f =? 0 then m
  else
    let k := Z.of_nat (String.length m) in
    let m' := if k <=? f then Str.zeros (Z.to_nat (f + 1 - k)) ++ m else m in
    let k' := if k <=? f then f + 1 else k in
    Str.take (Z.to_nat (k' - f)) m' ++ "." ++ Str.drop (Z.to_nat (k' - f)) m'.

(** Steps 6 to 12, once [fractionDigits] is known to be in range. *)
Definition fixed_string (x : float) (f : Z) : string :=
  if negb (Num.is_finite x) then Number_toString x
  else
    let xq := Num.F2Q x in
    let s := if Qle_bool 0 xq then "" else "-" in
    let xq := Qabs xq in
    let m :=
      if Qle_bool (Num.pow10 21) xq then Number_toString (abs x)
      else fixed_digits xq f in
    s ++ m.

Definition Number_toFixed (x : float) (fractionDigits : Z) : completion string :=
  let f := fractionDigits in
  if (f <? 0) || (100 <? f) then Throw RangeError
  else Normal (fixed_string x f).

End Fmt.

(** ** The page

    The script reaches the page through [document.getElementById] only, and
    of an element it reads [value] and writes [innerText].  A document maps
    element ids to these two properties; an id the page does not have gives
    [null], and a property access on [null] throws a TypeError. *)

Record Element := { value : string; innerText : string }.

Abbreviation Document := (gmap string Element).

Definition getElementById (document : Document) (id : string) : option Element :=
  document !! id.

Definition non_null {A} (o : option A) : completion A :=
  match o with
  | Some a => Normal a
  | None => Throw TypeError
  end.

Definition set_innerText (text : string) (el : Element) : Element :=
  {| value := value el; innerText := text |}.

(** ** The script *)

Section Script.

Variable approximate_pow : float -> float -> float.

Local Open Scope float_scope.

(** [for (let k = 1; k < n; k++) { sum += 1 / Math.pow(k, s); }]
    from the state [(k, sum)]; one unit of fuel per loop test. *)
Fixpoint zeta_loop (fuel : nat) (n s k sum : float) : completion float :=
  match fuel with
  | O => OutOfFuel
  | S fuel' =>
      if k <? n then
        zeta_loop fuel' n s (k + 1) (sum + 1 / Math_pow approximate_pow k s)
      else Normal sum
  end.

Definition zeta (fuel : nat) (s : float) : completion float :=
  let n := 1000 in
  let sum := 0 in
  zeta_loop fuel n s 1 sum.

(** The terms the loop adds to [sum], in the order it adds them: the same
    loop with the accumulation left out. *)
Fixpoint zeta_loop_terms (fuel : nat) (n s k : float) : completion (list float) :=
  match fuel with
  | O => OutOfFuel
  | S fuel' =>
      if k <? n then
        let? rest := zeta_loop_terms fuel' n s (k + 1) in
        Normal (1 / Math_pow approximate_pow k s :: rest)
      else Normal []
  end.

Definition zeta_terms (fuel : nat) (s : float) : completion (list float) :=
  zeta_loop_terms fuel 1000 s 1.

Definition calculate (fuel : nat) (document : Document) : completion Document :=
  let? time := non_null (getElementById document "time") in
  let t := Parse.parseFloat (value time) in
  let? realZeta := zeta fuel (1 + t * 1e-6) in
  let E := t * realZeta in
  let? output := non_null (getElementById document "output") in
  let? fixed := Fmt.Number_toFixed E 6 in
  Normal (<["output" := set_innerText ("E(t) ≈ " ++ fixed)%string output]> document).

End Script.

(** ** An instance of the approximated power

    Binary powering for the integral part of the exponent and repeated
    square roots for its fractional bits.  It stands for an engine's
    [pow] where a statement is evaluated on concrete numbers. *)

Module Engine.

Local Open Scope float_scope.

Definition int_pow (x : float) (n : Z) : float :=
  match n with
  | Zpos p => Pos.iter_op PrimFloat.mul p x
  | _ => 1
  end.

(** [acc * x^f] for [0 <= f < 1], one binary digit of [f] per step. *)
Fixpoint frac_pow (bits : nat) (x f acc : float) : float :=
  match bits with
  | O => acc
  | S bits' =>
      let r := sqrt x in
      let f2 := f * 2 in
      if 1 <=? f2 then frac_pow bits' r (f2 - 1) (acc * r)
      else frac_pow bits' r f2 acc
  end.

Definition split_exponent (y : float) : Z * float :=
  match Prim2SF y with
  | S754_finite _ m e =>
      if (0 <=? e)%Z then ((Zpos m * 2 ^ e)%Z, 0)
      else let i := (Zpos m / 2 ^ (- e))%Z in (i, abs y - Num.of_Z i)
  | _ => (0%Z, 0)
  end.

Definition approximate_pow (base exponent : float) : float :=
  let '(i, f) := split_exponent exponent in
  let p := frac_pow 60 (abs base) f (int_pow (abs base) i) in
  let p := if (base <? 0) && Z.odd i then - p else p in
  if exponent <? 0 then 1 / p else p.

End Engine.

(** ** Vocabulary of the statements *)

(** The values the loop counter takes while the test [k < n] holds. *)
Definition indices : list float := map Num.of_Z (seqZ 1 999).

(** [ks] lists the successive counter values from [k] for which the test
    [k < n] succeeds, and the test fails after the last of them. *)
Fixpoint counts_up (n k : float) (ks : list float) : bool :=
  match ks with
  | [] => negb (k <? n)%float
  | k' :: ks' => PrimFloat.Leibniz.eqb k k' && (k <? n)%float && counts_up n (k + 1)%float ks'
  end.

(** Spec-side reading of the Series Summation: the terms [1 / k^s] for
    [k = 1, ..., 999], added to an accumulator that starts at 0, in
    increasing order of [k]. *)
Definition add_term (ap : float -> float -> float) (s : float) (sum k : float) : float :=
  (sum + 1 / Math_pow ap k s)%float.

Definition series_summation (ap : float -> float -> float) (s : float) : float :=
  fold_left (add_term ap s) indices 0%float.

(** The number of terms one call of [zeta] adds. *)
Definition terms_added (ap : float -> float -> float) (fuel : nat) (s : float) : option nat :=
  match zeta_terms ap fuel s with
  | Normal terms => Some (length terms)
  | _ => None
  end.

(** The text shown in the element ["output"] after a call. *)
Definition displayed (c : completion Document) : option string :=
  match c with
  | Normal document => innerText <$> document !! "output"%string
  | _ => None
  end.

(** A page with the two elements the script uses; [t] is the content of
    the input field. *)
Definition page (t : string) : Document :=
  <["time"%string := {| value := t; innerText := EmptyString |}]>
    (<["output"%string := {| value := EmptyString; innerText := EmptyString |}]> ∅).

(** The numeric strings of ECMA-262 7.1.4.1: the productions of
    [StrDecimalLiteral], which [parseFloat] looks for at the head of the
    trimmed input. *)
Module Grammar.

Local Open Scope string_scope.

Inductive DecimalDigits : string -> Prop :=
  | digits_one c : Str.is_digit c = true -> DecimalDigits (String c EmptyString)
  | digits_more c s : Str.is_digit c = true -> DecimalDigits s -> DecimalDigits (String c s).

Inductive optional (P : string -> Prop) : string -> Prop :=
  | absent : optional P EmptyString
  | present s : P s -> optional P s.

Inductive Sign : string -> Prop :=
  | sign_none : Sign EmptyString
  | sign_plus : Sign "+"
  | sign_minus : Sign "-".

Inductive ExponentPart : string -> Prop :=
  | exponent c sg d :
      Parse.is_exponent_indicator c = true -> Sign sg -> DecimalDigits d ->
      ExponentPart (String c (sg ++ d)).

Inductive StrUnsignedDecimalLiteral : string -> Prop :=
  | lit_infinity : StrUnsignedDecimalLiteral "Infinity"
  | lit_int_dot i f e :
      DecimalDigits i -> optional DecimalDigits f -> optional ExponentPart e ->
      StrUnsignedDecimalLiteral (i ++ "." ++ f ++ e)
  | lit_dot f e :
      DecimalDigits f -> optional ExponentPart e ->
      StrUnsignedDecimalLiteral ("." ++ f ++ e)
  | lit_int i e :
      DecimalDigits i -> optional ExponentPart e ->
      StrUnsignedDecimalLiteral (i ++ e).

Inductive StrDecimalLiteral : string -> Prop :=
  | lit_unsigned s : StrUnsignedDecimalLiteral s -> StrDecimalLiteral s
  | lit_plus s : StrUnsignedDecimalLiteral s -> StrDecimalLiteral ("+" ++ s)
  | lit_minus s : StrUnsignedDecimalLiteral s -> StrDecimalLiteral ("-" ++ s).

End Grammar.

(** An input is non-numeric when, leading white space apart, none of its
    prefixes is a [StrDecimalLiteral]. *)
Definition non_numeric (input : string) : Prop :=
  forall p, String.prefix p (Parse.TrimStart input) = true -> ~ Grammar.StrDecimalLiteral p.

(** A test that is enough for it: after white space and an optional sign
    comes neither a digit, nor a dot and a digit, nor [Infinity]. *)
Definition starts_numeric (body : string) : bool :=
  match body with
  | String c r =>
      Str.is_digit c
      || (c =? ".")%char && match r with
                             | String d _ => Str.is_digit d
                             | EmptyString => false
                             end
      || String.prefix "Infinity" body
  | EmptyString => false
  end.

Definition looks_numeric (input : string) : bool :=
  starts_numeric (snd (Parse.split_sign (Parse.TrimStart input))).

(** A finite Number above zero. *)
Definition is_positive_finite (x : float) : bool :=
  match Prim2SF x with
  | S754_finite false _ _ => true
  | _ => false
  end.

Definition is_finite_nonzero (x : float) : bool :=
  match Prim2SF x with
  | S754_finite _ _ _ => true
  | _ => false
  end.

(** The 999-term partial sum of the harmonic series, in floating point. *)
Definition harmonic_999 : float :=
  fold_left (fun sum k => sum + 1 / Num.of_Z k)%float (seqZ 1 999) 0%float.

(** The digits of a text after its first decimal point: their number,
    when there is a point and only digits follow it. *)
Fixpoint all_digits (s : string) : bool :=
  match s with
  | String c r => Str.is_digit c && all_digits r
  | EmptyString => true
  end.

Fixpoint after_point (s : string) : option string :=
  match s with
  | String c r => if (c =? ".")%char then Some r else after_point r
  | EmptyString => None
  end.

Definition fraction_digits (s : string) : option nat :=
  match after_point s with
  | Some b => if all_digits b then Some (String.length b) else None
  | None => None
  end.

(** A string of ASCII white space: tab, line feed, vertical tab, form feed,
    carriage return, space. *)
Fixpoint is_blank (s : string) : bool :=
  match s with
  | String c r => Parse.ws1 c && is_blank r
  | EmptyString => true
  end.

(** Text that cannot continue a run of digits into a longer literal: it
    is empty or begins with something other than a digit, a point or an
    exponent indicator. *)
Definition stops_number (rest : string) : bool :=
  match rest with
  | String c _ => negb (Str.is_digit c || (c =? ".")%char || Parse.is_exponent_indicator c)
  | EmptyString => true
  end.

(** Whether a text begins with a minus sign. *)
Definition starts_with_minus (s : string) : bool :=
  match s with
  | String c _ => (c =? "-")%char
  | EmptyString => false
  end.

(** [+0] or [-0]. *)
Definition is_zero_value (x : float) : bool :=
  match Prim2SF x with
  | S754_zero _ => true
  | _ => false
  end.

(** * Properties *)

(** ** The built-ins on known values *)

Section KnownValues.

Local Open Scope string_scope.
Local Open Scope float_scope.

Example parseFloat_prefix : Parse.parseFloat "3.14abc" = 3.14.
Proof. vm_compute. reflexivity. Qed.

Example parseFloat_forms :
  map Parse.parseFloat [" 12.5E+2x"; ".5"; "1.e2"; "1e"; "-.5e-1"; "  -0"; "0x10"; "Infinityx"]
  = [1250; 0.5; 100; 1; -0.05; neg_zero; 0; infinity].
Proof. vm_compute. reflexivity. Qed.

Example parseFloat_rejects :
  map Parse.parseFloat [""; "abc"; "."; "-"; "+.e1"; "infinity"] = [nan; nan; nan; nan; nan; nan].
Proof. vm_compute. reflexivity. Qed.

Example parseFloat_rounds :
  map Parse.parseFloat ["0.1"; "1e400"; "-1e-400"; "1.7976931348623159e308"; "2e-324"]
  = [0.1; infinity; neg_zero; infinity; 0].
Proof. vm_compute. reflexivity. Qed.

Example Math_pow_special (ap : float -> float -> float) :
  map (fun '(b, e) => Math_pow ap b e)
      [(2, nan); (nan, 0); (1, infinity); (2, infinity); (0.5, infinity);
       (2, neg_infinity); (neg_zero, 3); (neg_zero, -3); (neg_infinity, 3);
       (-2, 0.5); (0, -1); (infinity, -1)]
  = [nan; 1; nan; infinity; 0; 0; neg_zero; neg_infinity; neg_infinity; nan; infinity; 0].
Proof. reflexivity. Qed.

Example Number_toString_forms :
  map Fmt.Number_toString
      [0.1 + 0.2; 123.456; 1e21; 123456789012345680000; 1e-7; 0.000001; -1.5; 100;
       1.2345678e25; nan; neg_infinity; neg_zero]
  = ["0.30000000000000004"; "123.456"; "1e+21"; "123456789012345680000"; "1e-7";
     "0.000001"; "-1.5"; "100"; "1.2345678e+25"; "NaN"; "-Infinity"; "0"].
Proof. vm_compute. reflexivity. Qed.

Example Number_toFixed_forms :
  map (fun x => Fmt.Number_toFixed x 6)
      [1.005; 0; neg_zero; -1.5; -1e-10; 0.0000015; 123.456; 999999999999999900000;
       1e21; -1e21; nan; infinity]
  = map Normal
      ["1.005000"; "0.000000"; "0.000000"; "-1.500000"; "-0.000000"; "0.000002";
       "123.456000"; "999999999999999868928.000000"; "1e+21"; "-1e+21"; "NaN"; "Infinity"].
Proof. vm_compute. reflexivity. Qed.

Example Number_toFixed_ties :
  (Fmt.Number_toFixed 2.5 0, Fmt.Number_toFixed 0.5 0, Fmt.Number_toFixed 1.45 1,
   Fmt.Number_toFixed 1.005 2, Fmt.Number_toFixed 1 101)
  = (Normal "3", Normal "1", Normal "1.4", Normal "1.00", Throw RangeError).
Proof. vm_compute. reflexivity. Qed.

End KnownValues.

(** ** The loop of [zeta] *)

Section Loop.

Variable ap : float -> float -> float.

Lemma counts_up_indices : counts_up 1000 1 indices = true.
Proof. vm_compute. reflexivity. Qed.

Lemma indices_cons : indices = 1%float :: tl indices.
Proof. vm_compute. reflexivity. Qed.

Lemma length_indices : length indices = 999%nat.
Proof. vm_compute. reflexivity. Qed.

Lemma zeta_loop_unroll n s ks :
  forall k sum extra,
    counts_up n k ks = true ->
    zeta_loop ap (S (length ks) + extra) n s k sum
    = Normal (fold_left (add_term ap s) ks sum).
Proof.
  induction ks as [|k' ks IH]; intros k sum extra Hc; simpl in Hc |- *.
  - apply negb_true_iff in Hc. rewrite Hc. reflexivity.
  - apply andb_prop in Hc as [Hc Hrest]. apply andb_prop in Hc as [Heq Hlt].
    apply FloatAxioms.Leibniz.eqb_spec in Heq. subst k'.
    rewrite Hlt. apply IH, Hrest.
Qed.

Lemma zeta_loop_terms_unroll n s ks :
  forall k extra,
    counts_up n k ks = true ->
    zeta_loop_terms ap (S (length ks) + extra) n s k
    = Normal (map (fun k => 1 / Math_pow ap k s)%float ks).
Proof.
  induction ks as [|k' ks IH]; intros k extra Hc; simpl in Hc |- *.
  - apply negb_true_iff in Hc. rewrite Hc. reflexivity.
  - apply andb_prop in Hc as [Hc Hrest]. apply andb_prop in Hc as [Heq Hlt].
    apply FloatAxioms.Leibniz.eqb_spec in Heq. subst k'.
    rewrite Hlt. specialize (IH (k + 1)%float extra Hrest). simpl in IH.
    rewrite IH. reflexivity.
Qed.

(** With fuel for the 999 successful loop tests and the failing one,
    [zeta] returns the series. *)
Lemma zeta_normal s fuel :
  (1000 <= fuel)%nat -> zeta ap fuel s = Normal (series_summation ap s).
Proof.
  intros Hfuel. unfold zeta, series_summation.
  replace fuel with (S (length indices) + (fuel - 1000))%nat
    by (rewrite length_indices; lia).
  apply zeta_loop_unroll, counts_up_indices.
Qed.

Lemma zeta_terms_normal s fuel :
  (1000 <= fuel)%nat ->
  zeta_terms ap fuel s = Normal (map (fun k => 1 / Math_pow ap k s)%float indices).
Proof.
  intros Hfuel. unfold zeta_terms.
  replace fuel with (S (length indices) + (fuel - 1000))%nat
    by (rewrite length_indices; lia).
  apply zeta_loop_terms_unroll, counts_up_indices.
Qed.

Lemma fold_add_terms s ks sum :
  fold_left (add_term ap s) ks sum
  = fold_left PrimFloat.add (map (fun k => 1 / Math_pow ap k s)%float ks) sum.
Proof.
  revert sum. induction ks as [|k ks IH]; intros sum; simpl; [reflexivity|].
  rewrite IH. reflexivity.
Qed.

Lemma fold_left_map_of_Z (f : float -> float -> float) (l : list Z) sum :
  fold_left f (map Num.of_Z l) sum = fold_left (fun a k => f a (Num.of_Z k)) l sum.
Proof.
  revert sum. induction l as [|k l IH]; intros sum; simpl; [reflexivity|]. apply IH.
Qed.

(** Less fuel than loop tests does not reach the end of the loop. *)
Lemma zeta_loop_short n s ks :
  forall k sum ks' fuel,
    counts_up n k (ks ++ ks') = true -> (fuel <= length ks)%nat ->
    zeta_loop ap fuel n s k sum = OutOfFuel.
Proof.
  induction ks as [|k' ks IH]; intros k sum ks' fuel Hc Hf; simpl in Hf.
  - replace fuel with 0%nat by lia. reflexivity.
  - destruct fuel as [|fuel]; [reflexivity|]. simpl in Hc |- *.
    apply andb_prop in Hc as [Hc Hrest]. apply andb_prop in Hc as [Heq Hlt].
    rewrite Hlt. apply (IH _ _ ks'); [exact Hrest | lia].
Qed.

Lemma zeta_out_of_fuel s fuel :
  (fuel < 1000)%nat -> zeta ap fuel s = OutOfFuel.
Proof.
  intros Hf. unfold zeta.
  apply (zeta_loop_short _ _ indices _ _ []).
  - rewrite app_nil_r. apply counts_up_indices.
  - rewrite length_indices. lia.
Qed.

End Loop.

(** ** NaN is absorbing *)

Section NaN.

Local Open Scope float_scope.

Lemma add_nan_l x : nan + x = nan.
Proof. apply Prim2SF_inj. rewrite add_spec. reflexivity. Qed.

Lemma add_nan_r x : x + nan = nan.
Proof.
  apply Prim2SF_inj. rewrite add_spec.
  change (Prim2SF nan) with S754_nan. destruct (Prim2SF x); reflexivity.
Qed.

Lemma mul_nan_l x : nan * x = nan.
Proof. apply Prim2SF_inj. rewrite mul_spec. reflexivity. Qed.

Lemma mul_nan_r x : x * nan = nan.
Proof.
  apply Prim2SF_inj. rewrite mul_spec.
  change (Prim2SF nan) with S754_nan. destruct (Prim2SF x); reflexivity.
Qed.

Lemma div_nan_r x : x / nan = nan.
Proof.
  apply Prim2SF_inj. rewrite div_spec.
  change (Prim2SF nan) with S754_nan. destruct (Prim2SF x); reflexivity.
Qed.

Variable ap : float -> float -> float.

Lemma Math_pow_nan_exponent base : Math_pow ap base nan = nan.
Proof. reflexivity. Qed.

Lemma Math_pow_one_infinite s :
  s = infinity \/ s = neg_infinity -> Math_pow ap 1 s = nan.
Proof. intros [-> | ->]; reflexivity. Qed.

Lemma fold_add_term_nan s ks : fold_left (add_term ap s) ks nan = nan.
Proof.
  induction ks as [|k ks IH]; simpl; [reflexivity|].
  unfold add_term at 2. rewrite add_nan_l. exact IH.
Qed.

(** A NaN first term makes the whole series NaN. *)
Lemma series_summation_nan s :
  Math_pow ap 1 s = nan -> series_summation ap s = nan.
Proof.
  intros H. unfold series_summation.
  rewrite indices_cons. generalize (tl indices) as ks. intros ks.
  cbn [fold_left]. unfold add_term at 2. rewrite H, div_nan_r, add_nan_r.
  apply fold_add_term_nan.
Qed.

Lemma zeta_nan s fuel :
  (1000 <= fuel)%nat -> Math_pow ap 1 s = nan -> zeta ap fuel s = Normal nan.
Proof.
  intros Hfuel H. rewrite (zeta_normal ap s fuel Hfuel).
  rewrite (series_summation_nan s H). reflexivity.
Qed.

End NaN.

(** ** One call of [calculate] *)

Section Calculate.

Variable ap : float -> float -> float.

Lemma Number_toFixed_6 E : Fmt.Number_toFixed E 6 = Normal (Fmt.fixed_string E 6).
Proof. reflexivity. Qed.

Lemma calculate_normal fuel (document : Document) time output :
  document !! "time"%string = Some time ->
  document !! "output"%string = Some output ->
  (1000 <= fuel)%nat ->
  let t := Parse.parseFloat (value time) in
  let E := (t * series_summation ap (1 + t * 1e-6))%float in
  calculate ap fuel document
  = Normal (<["output"%string :=
               set_innerText ("E(t) ≈ " ++ Fmt.fixed_string E 6)%string output]> document).
Proof.
  intros Ht Ho Hfuel t E. unfold calculate, getElementById.
  rewrite Ht, Ho. simpl. fold t.
  rewrite (zeta_normal ap _ fuel Hfuel). simpl. reflexivity.
Qed.

Lemma displayed_calculate fuel (document : Document) time output :
  document !! "time"%string = Some time ->
  document !! "output"%string = Some output ->
  (1000 <= fuel)%nat ->
  let t := Parse.parseFloat (value time) in
  let E := (t * series_summation ap (1 + t * 1e-6))%float in
  displayed (calculate ap fuel document)
  = Some ("E(t) ≈ " ++ Fmt.fixed_string E 6)%string.
Proof.
  intros Ht Ho Hfuel t E.
  rewrite (calculate_normal fuel document time output Ht Ho Hfuel).
  unfold displayed. rewrite lookup_insert_eq. reflexivity.
Qed.

Lemma calculate_completes fuel (document : Document) :
  (1000 <= fuel)%nat ->
  (exists document', calculate ap fuel document = Normal document')
  \/ calculate ap fuel document = Throw TypeError.
Proof.
  intros Hfuel.
  destruct (document !! "time"%string) as [time|] eqn:Ht.
  - destruct (document !! "output"%string) as [output|] eqn:Ho.
    + left. eexists. apply (calculate_normal fuel document time output Ht Ho Hfuel).
    + right. unfold calculate, getElementById. rewrite Ht, Ho. simpl.
      rewrite (zeta_normal ap _ fuel Hfuel). reflexivity.
  - right. unfold calculate, getElementById. rewrite Ht. reflexivity.
Qed.

End Calculate.

(** ** parseFloat on non-numeric input *)

Section ParseFloat.

Local Open Scope string_scope.

Lemma append_cons c s r : String c s ++ r = String c (s ++ r).
Proof. reflexivity. Qed.

Lemma append_nil r : "" ++ r = r.
Proof. reflexivity. Qed.

Lemma prefix_app p r : String.prefix p (p ++ r) = true.
Proof.
  induction p as [|c p IH]; [destruct r; reflexivity|].
  rewrite append_cons. simpl.
  destruct (ascii_dec c c) as [_|Hne]; [exact IH | contradiction].
Qed.

Lemma prefix_split p s : String.prefix p s = true -> exists r, s = p ++ r.
Proof.
  revert s. induction p as [|c p IH]; intros s H.
  - exists s. reflexivity.
  - destruct s as [|c' s]; simpl in H; [discriminate|].
    destruct (ascii_dec c c') as [->|]; [|discriminate].
    destruct (IH s H) as [r ->]. exists r. reflexivity.
Qed.

Lemma append_empty_r s : s ++ "" = s.
Proof. induction s as [|c s IH]; [reflexivity | rewrite append_cons, IH; reflexivity]. Qed.

Lemma span_digits_app s d r : Str.span_digits s = (d, r) -> s = d ++ r.
Proof.
  revert d r. induction s as [|c s IH]; intros d r H; simpl in H.
  - injection H as <- <-. reflexivity.
  - destruct (Str.is_digit c).
    + destruct (Str.span_digits s) as [d' r'] eqn:Hs. injection H as <- <-.
      rewrite append_cons. f_equal. exact (IH d' r' eq_refl).
    + injection H as <- <-. reflexivity.
Qed.

Lemma span_digits_DecimalDigits s d r :
  Str.span_digits s = (d, r) -> Str.is_empty d = false -> Grammar.DecimalDigits d.
Proof.
  revert d r. induction s as [|c s IH]; intros d r H Hd; simpl in H.
  - injection H as <- <-. discriminate.
  - destruct (Str.is_digit c) eqn:Hc.
    + destruct (Str.span_digits s) as [d' r'] eqn:Hs. injection H as <- <-.
      destruct d' as [|c' d'].
      * apply Grammar.digits_one, Hc.
      * apply Grammar.digits_more; [exact Hc|]. apply (IH _ r'); reflexivity.
    + injection H as <- <-. discriminate.
Qed.

(** When the scanner finds a literal, a prefix of its input is in the grammar. *)
Lemma unsigned_literal_Some body a :
  Parse.unsigned_literal body = Some a ->
  exists p, String.prefix p body = true /\ Grammar.StrUnsignedDecimalLiteral p.
Proof.
  unfold Parse.unsigned_literal. intros H.
  destruct (String.prefix "Infinity" body) eqn:Hinf.
  { exists "Infinity". split; [exact Hinf | constructor]. }
  destruct (Str.span_digits body) as [ip r1] eqn:Hip.
  pose proof (span_digits_app _ _ _ Hip) as Hbody.
  destruct (Str.is_empty ip) eqn:Hie.
  - (* no integer part: a dot and digits *)
    destruct ip; [|discriminate]. rewrite append_nil in Hbody. subst r1.
    destruct body as [|c r]; [discriminate|].
    destruct (c =? ".")%char eqn:Hdot; [|discriminate].
    apply Ascii.eqb_eq in Hdot. subst c.
    destruct (Str.span_digits r) as [fp r2] eqn:Hfp.
    destruct (Str.is_empty fp) eqn:Hfe; [discriminate|].
    exists ("." ++ fp ++ ""). split.
    + rewrite append_empty_r, (span_digits_app _ _ _ Hfp).
      change ("." ++ fp) with (String "." fp). simpl.
      destruct (ascii_dec "." "."); [apply prefix_app | contradiction].
    + apply Grammar.lit_dot; [apply (span_digits_DecimalDigits _ _ _ Hfp Hfe) | constructor].
  - exists (ip ++ ""). split.
    + rewrite append_empty_r, Hbody. apply prefix_app.
    + apply Grammar.lit_int; [apply (span_digits_DecimalDigits _ _ _ Hip Hie) | constructor].
Qed.

Lemma split_sign_literal trimmed neg body p :
  Parse.split_sign trimmed = (neg, body) ->
  String.prefix p body = true -> Grammar.StrUnsignedDecimalLiteral p ->
  exists q, String.prefix q trimmed = true /\ Grammar.StrDecimalLiteral q.
Proof.
  intros Hsign Hp Hg. unfold Parse.split_sign in Hsign.
  destruct trimmed as [|c r].
  - injection Hsign as _ <-. exists p. split; [exact Hp | constructor; exact Hg].
  - destruct (c =? "+")%char eqn:Hplus.
    { injection Hsign as _ <-. apply Ascii.eqb_eq in Hplus. subst c.
      exists ("+" ++ p). split; [|constructor; exact Hg].
      change ("+" ++ p) with (String "+" p). simpl.
      destruct (ascii_dec "+" "+"); [exact Hp | contradiction]. }
    destruct (c =? "-")%char eqn:Hminus.
    { injection Hsign as _ <-. apply Ascii.eqb_eq in Hminus. subst c.
      exists ("-" ++ p). split; [|constructor; exact Hg].
      change ("-" ++ p) with (String "-" p). simpl.
      destruct (ascii_dec "-" "-"); [exact Hp | contradiction]. }
    injection Hsign as _ <-. exists p. split; [exact Hp | constructor; exact Hg].
Qed.

Lemma parseFloat_non_numeric input :
  non_numeric input -> Parse.parseFloat input = nan.
Proof.
  intros Hnn. unfold Parse.parseFloat.
  destruct (Parse.split_sign (Parse.TrimStart input)) as [neg body] eqn:Hsign.
  destruct (Parse.unsigned_literal body) as [a|] eqn:Hlit; [exfalso | reflexivity].
  destruct (unsigned_literal_Some body a Hlit) as [p [Hp Hg]].
  destruct (split_sign_literal _ _ _ _ Hsign Hp Hg) as [q [Hq Hlitq]].
  exact (Hnn q Hq Hlitq).
Qed.

(** Every literal of the grammar begins the way [starts_numeric] tests. *)
Lemma DecimalDigits_head d :
  Grammar.DecimalDigits d -> exists c r, d = String c r /\ Str.is_digit c = true.
Proof. intros [c Hc | c s Hc _]; eauto. Qed.

Lemma starts_numeric_literal p rest :
  Grammar.StrUnsignedDecimalLiteral p -> starts_numeric (p ++ rest) = true.
Proof.
  intros [ | i f e Hi _ _ | f e Hf _ | i e Hi _ ].
  - pose proof (prefix_app "Infinity" rest) as Hpre.
    change ("Infinity" ++ rest) with (String "I" ("nfinity" ++ rest)) in Hpre |- *.
    unfold starts_numeric. rewrite Hpre. apply orb_true_r.
  - destruct (DecimalDigits_head i Hi) as [c [r [-> Hc]]].
    rewrite !append_cons. simpl. rewrite Hc. reflexivity.
  - destruct (DecimalDigits_head f Hf) as [c [r [-> Hc]]].
    change (("." ++ String c r ++ e) ++ rest) with (String "." (String c ((r ++ e) ++ rest))).
    simpl. rewrite Hc. reflexivity.
  - destruct (DecimalDigits_head i Hi) as [c [r [-> Hc]]].
    rewrite !append_cons. simpl. rewrite Hc. reflexivity.
Qed.

Lemma starts_numeric_not_sign c r :
  starts_numeric (String c r) = true ->
  Parse.split_sign (String c r) = (false, String c r).
Proof.
  intros H. unfold Parse.split_sign.
  destruct (c =? "+")%char eqn:Hplus.
  { apply Ascii.eqb_eq in Hplus. subst c. discriminate H. }
  destruct (c =? "-")%char eqn:Hminus.
  { apply Ascii.eqb_eq in Hminus. subst c. discriminate H. }
  reflexivity.
Qed.

Lemma looks_numeric_false input : looks_numeric input = false -> non_numeric input.
Proof.
  unfold looks_numeric, non_numeric. intros Hlook p Hp Hlit.
  destruct (prefix_split _ _ Hp) as [rest Htrim]. rewrite Htrim in Hlook.
  assert (Hst : starts_numeric (snd (Parse.split_sign (p ++ rest))) = true);
    [|congruence].
  destruct Hlit as [s Hs | s Hs | s Hs].
  - pose proof (starts_numeric_literal s rest Hs) as Hst.
    destruct (s ++ rest) as [|c r] eqn:Hsr; [discriminate|].
    rewrite (starts_numeric_not_sign c r Hst). exact Hst.
  - exact (starts_numeric_literal s rest Hs).
  - exact (starts_numeric_literal s rest Hs).
Qed.

End ParseFloat.

(** ** The series where the power is left to the engine *)

Section Approximated.

Variable ap : float -> float -> float.

Local Open Scope float_scope.

(** Step 13 of Number::exponentiate. *)
Lemma Math_pow_approximated base exponent :
  is_positive_finite base = true -> is_finite_nonzero exponent = true ->
  Math_pow ap base exponent = ap base exponent.
Proof.
  unfold is_positive_finite, is_finite_nonzero, Math_pow. intros Hb He.
  destruct (Prim2SF exponent); try discriminate.
  destruct (Prim2SF base) as [| | |[|] ? ?]; try discriminate.
  reflexivity.
Qed.

Lemma indices_positive_finite : forallb is_positive_finite indices = true.
Proof. vm_compute. reflexivity. Qed.

Lemma indices_range k : In k indices -> exists z, (1 <= z <= 999)%Z /\ k = Num.of_Z z.
Proof.
  unfold indices. intros Hin. apply in_map_iff in Hin as [z [<- Hz]].
  exists z. split; [|reflexivity].
  apply list_elem_of_In, elem_of_seqZ in Hz. lia.
Qed.

Lemma fold_left_ext_In (f g : float -> float -> float) (ks : list float) :
  (forall sum k, In k ks -> f sum k = g sum k) ->
  forall sum, fold_left f ks sum = fold_left g ks sum.
Proof.
  induction ks as [|k ks IH]; intros Hfg sum; simpl; [reflexivity|].
  rewrite (Hfg sum k (or_introl eq_refl)).
  apply IH. intros sum' k' Hin. apply Hfg. right. exact Hin.
Qed.

Lemma series_summation_approximated s :
  is_finite_nonzero s = true ->
  series_summation ap s = fold_left (fun sum k => sum + 1 / ap k s) indices 0.
Proof.
  intros Hs. unfold series_summation. apply fold_left_ext_In.
  intros sum k Hin. unfold add_term.
  rewrite Math_pow_approximated; [reflexivity | | exact Hs].
  pose proof indices_positive_finite as Hall.
  rewrite forallb_forall in Hall. apply Hall, Hin.
Qed.

(** With [k^1 = k] the series at exponent 1 is the harmonic partial sum. *)
Lemma series_summation_one :
  (forall k, (1 <= k <= 999)%Z -> ap (Num.of_Z k) 1 = Num.of_Z k) ->
  series_summation ap 1 = harmonic_999.
Proof.
  intros Hap. rewrite series_summation_approximated by reflexivity.
  unfold harmonic_999, indices. rewrite fold_left_map_of_Z.
  rewrite <- (fold_left_map_of_Z (fun sum k => sum + 1 / ap k 1)).
  rewrite <- (fold_left_map_of_Z (fun sum k => sum + 1 / k)).
  apply fold_left_ext_In. intros sum k Hin.
  destruct (indices_range k Hin) as [z [Hz ->]]. rewrite (Hap z Hz). reflexivity.
Qed.

Lemma harmonic_999_value : harmonic_999 = 7.4844708605503429.
Proof. vm_compute. reflexivity. Qed.

End Approximated.

(** A property checked on each of [1, ..., 999] holds on the range. *)
Lemma forallb_range (f : Z -> bool) :
  forallb f (seqZ 1 999) = true -> forall k, (1 <= k <= 999)%Z -> f k = true.
Proof.
  intros H k Hk. rewrite forallb_forall in H. apply H.
  apply list_elem_of_In, elem_of_seqZ. lia.
Qed.

(** ** The shape of [toFixed] *)

Section Fixed.

Local Open Scope string_scope.
Local Open Scope Z_scope.

Lemma all_digits_app a b : all_digits (a ++ b) = all_digits a && all_digits b.
Proof.
  induction a as [|c a IH]; [reflexivity|].
  rewrite append_cons. simpl. rewrite IH. apply andb_assoc.
Qed.

Lemma all_digits_zeros n : all_digits (Str.zeros n) = true.
Proof. induction n as [|n IH]; simpl; [reflexivity | exact IH]. Qed.

Lemma length_zeros n : String.length (Str.zeros n) = n.
Proof. induction n as [|n IH]; simpl; [reflexivity | rewrite IH; reflexivity]. Qed.

Lemma length_app a b : String.length (a ++ b) = (String.length a + String.length b)%nat.
Proof.
  induction a as [|c a IH]; [reflexivity|].
  rewrite append_cons. simpl. rewrite IH. reflexivity.
Qed.

Lemma all_digits_take n s : all_digits s = true -> all_digits (Str.take n s) = true.
Proof.
  revert s. induction n as [|n IH]; intros [|c s] H; simpl in *; try reflexivity.
  apply andb_prop in H as [Hc Hs]. rewrite Hc. apply IH, Hs.
Qed.

Lemma all_digits_drop n s : all_digits s = true -> all_digits (Str.drop n s) = true.
Proof.
  revert s. induction n as [|n IH]; intros [|c s] H; simpl in *; try reflexivity; try exact H.
  apply andb_prop in H as [Hc Hs]. apply IH, Hs.
Qed.

Lemma length_drop n s : String.length (Str.drop n s) = (String.length s - n)%nat.
Proof.
  revert s. induction n as [|n IH]; intros [|c s]; simpl; try reflexivity. apply IH.
Qed.

Lemma digit_not_point c : Str.is_digit c = true -> (c =? ".")%char = false.
Proof. intros H. apply Ascii.eqb_neq. intros ->. discriminate. Qed.

Lemma after_point_digits a r :
  all_digits a = true -> after_point (a ++ "." ++ r) = Some r.
Proof.
  induction a as [|c a IH]; intros H.
  - reflexivity.
  - simpl in H. apply andb_prop in H as [Hc Ha].
    rewrite append_cons. simpl. rewrite (digit_not_point c Hc). apply IH, Ha.
Qed.

Lemma all_digits_uint d : all_digits (NilEmpty.string_of_uint d) = true.
Proof. induction d; simpl; try reflexivity; exact IHd. Qed.

Lemma all_digits_decimal n : all_digits (Str.decimal n) = true.
Proof.
  unfold Str.decimal, NilZero.string_of_uint.
  destruct (N.to_uint (Z.to_N n)); try reflexivity; apply all_digits_uint.
Qed.

(** The digits [toFixed] prints end in a point and [f] digits. *)
Lemma fixed_digits_fraction x f :
  0 < f -> exists a b,
    Fmt.fixed_digits x f = a ++ "." ++ b
    /\ all_digits a = true /\ Str.is_empty a = false
    /\ all_digits b = true /\ String.length b = Z.to_nat f.
Proof.
  intros Hf. unfold Fmt.fixed_digits.
  set (n := Qfloor _).
  set (m := if n =? 0 then "0" else Str.decimal n).
  assert (Hm : all_digits m = true).
  { unfold m. destruct (n =? 0); [reflexivity | apply all_digits_decimal]. }
  replace (f =? 0) with false by (symmetry; apply Z.eqb_neq; lia).
  set (k := Z.of_nat (String.length m)).
  set (m' := if k <=? f then Str.zeros (Z.to_nat (f + 1 - k)) ++ m else m).
  set (k' := if k <=? f then f + 1 else k).
  assert (Hm' : all_digits m' = true).
  { unfold m'. destruct (k <=? f); [|exact Hm].
    rewrite all_digits_app, all_digits_zeros, Hm. reflexivity. }
  assert (Hk' : Z.of_nat (String.length m') = k' /\ f < k').
  { unfold m', k'. destruct (k <=? f) eqn:Hkf.
    - rewrite length_app, length_zeros. apply Z.leb_le in Hkf. unfold k in *. lia.
    - apply Z.leb_gt in Hkf. unfold k in *. lia. }
  destruct Hk' as [Hlen Hlt].
  exists (Str.take (Z.to_nat (k' - f)) m'), (Str.drop (Z.to_nat (k' - f)) m').
  split; [reflexivity|].
  split; [apply all_digits_take, Hm'|].
  split.
  - destruct m' as [|c r]; [simpl in Hlen; lia|].
    destruct (Z.to_nat (k' - f)) eqn:Hn; [lia | reflexivity].
  - split; [apply all_digits_drop, Hm'|]. rewrite length_drop. lia.
Qed.

Lemma fixed_string_fraction x f :
  0 < f -> Num.is_finite x = true -> (Qabs (Num.F2Q x) < Num.pow10 21)%Q ->
  exists sg a b,
    Fmt.fixed_string x f = sg ++ a ++ "." ++ b
    /\ (sg = "" \/ sg = "-")
    /\ all_digits a = true /\ Str.is_empty a = false
    /\ all_digits b = true /\ String.length b = Z.to_nat f
    /\ fraction_digits (Fmt.fixed_string x f) = Some (Z.to_nat f).
Proof.
  intros Hf Hfin Hlt. unfold Fmt.fixed_string. rewrite Hfin. cbn [negb].
  destruct (Qle_bool (Num.pow10 21) (Qabs (Num.F2Q x))) eqn:Hbig.
  { apply Qle_bool_iff in Hbig. exfalso. exact (Qlt_not_le _ _ Hlt Hbig). }
  destruct (fixed_digits_fraction (Qabs (Num.F2Q x)) f Hf) as [a [b [-> [Ha [Hne [Hb Hlen]]]]]].
  set (sg := if Qle_bool 0 (Num.F2Q x) then "" else "-").
  assert (Hsg : sg = "" \/ sg = "-") by (unfold sg; destruct (Qle_bool 0 (Num.F2Q x)); auto).
  exists sg, a, b. repeat (split; [assumption || reflexivity|]).
  unfold fraction_digits.
  assert (Hafter : after_point (sg ++ a ++ "." ++ b) = Some b).
  { destruct Hsg as [-> | ->].
    - rewrite append_nil. apply after_point_digits, Ha.
    - change ("-" ++ a ++ "." ++ b) with (String "-" (a ++ "." ++ b)).
      simpl. apply after_point_digits, Ha. }
  rewrite Hafter, Hb, Hlen. reflexivity.
Qed.

Lemma fixed_string_not_finite x f :
  Num.is_finite x = false ->
  (Fmt.fixed_string x f = "NaN" \/ Fmt.fixed_string x f = "Infinity"
   \/ Fmt.fixed_string x f = "-Infinity")
  /\ fraction_digits (Fmt.fixed_string x f) = None.
Proof.
  intros Hfin. unfold Fmt.fixed_string. rewrite Hfin. cbn [negb].
  unfold Num.is_finite in Hfin. unfold Fmt.Number_toString.
  destruct (Prim2SF x) as [|[|]| |]; try discriminate; split; auto.
Qed.

Lemma fraction_digits_display fixed :
  fraction_digits ("E(t) ≈ " ++ fixed) = fraction_digits fixed.
Proof. reflexivity. Qed.

End Fixed.

(** A non-numeric input shows NaN, whatever the engine's power. *)
Lemma displayed_non_numeric
    (ap : float -> float -> float) (fuel : nat) (document : Document)
    (time output : Element) :
  document !! "time"%string = Some time ->
  document !! "output"%string = Some output ->
  (1000 <= fuel)%nat ->
  non_numeric (value time) ->
  calculate ap fuel document
  = Normal (<["output"%string := set_innerText "E(t) ≈ NaN" output]> document)
  /\ displayed (calculate ap fuel document) = Some "E(t) ≈ NaN"%string.
Proof.
  intros Ht Ho Hfuel Hnn.
  pose proof (calculate_normal ap fuel document time output Ht Ho Hfuel) as Hc.
  pose proof (displayed_calculate ap fuel document time output Ht Ho Hfuel) as Hd.
  cbv zeta in Hc, Hd.
  rewrite (parseFloat_non_numeric _ Hnn), mul_nan_l in Hc, Hd.
  split; [exact Hc | exact Hd].
Qed.

(** ** Rounding keeps a sum above one *)

Section Rounding.

Lemma fexp_eq e : fexp prec emax e = Z.max (e - 53) (-1074).
Proof. reflexivity. Qed.

Lemma Zdigits2_log2 p : Zdigits2 (Zpos p) = Z.log2 (Zpos p) + 1.
Proof.
  unfold Zdigits2. induction p as [p IH | p IH |]; [| |reflexivity].
  - change (digits2_pos p~1) with (Pos.succ (digits2_pos p)).
    rewrite Pos2Z.inj_succ, IH. rewrite (Pos2Z.inj_xI p).
    rewrite Z.log2_succ_double by lia. lia.
  - change (digits2_pos p~0) with (Pos.succ (digits2_pos p)).
    rewrite Pos2Z.inj_succ, IH. rewrite (Pos2Z.inj_xO p).
    rewrite Z.log2_double by lia. lia.
Qed.

Lemma iter_xO_pow m d : Zpos (Pos.iter xO m d) = Zpos m * 2 ^ Zpos d.
Proof.
  induction d as [|d IH] using Pos.peano_ind.
  - simpl. lia.
  - rewrite Pos.iter_succ, Pos2Z.inj_xO, IH, Pos2Z.inj_succ, Z.pow_succ_r by lia. lia.
Qed.

Lemma shr_m_shr_1 r : 0 <= shr_m r -> shr_m (shr_1 r) = shr_m r / 2.
Proof.
  destruct r as [m rb sb]. simpl. intros Hm.
  destruct m as [|[p|p|]|p]; simpl; try reflexivity; try lia.
  - rewrite Pos2Z.inj_xI. apply Z.div_unique with 1; lia.
  - rewrite Pos2Z.inj_xO. apply Z.div_unique with 0; lia.
Qed.

Lemma shr_m_iter_shr_1 p : forall r,
  0 <= shr_m r -> shr_m (SpecFloat.iter_pos shr_1 p r) = shr_m r / 2 ^ Zpos p.
Proof.
  assert (Hnn : forall r, 0 <= shr_m r -> 0 <= shr_m r / 2)
    by (intros; apply Z.div_pos; lia).
  induction p as [p IH | p IH |]; intros r Hr.
  - cbn [SpecFloat.iter_pos]. rewrite IH, IH, shr_m_shr_1 by
      (try rewrite IH; try rewrite shr_m_shr_1; try apply Z.div_pos; try apply Hnn; try lia).
    rewrite !Z.div_div by lia. f_equal.
    rewrite Pos2Z.inj_xI, Z.pow_add_r, Z.pow_mul_r by lia.
    change (2 ^ 2) with 4. rewrite Z.pow_1_r.
    replace (4 ^ Zpos p) with (2 ^ Zpos p * 2 ^ Zpos p); [lia|].
    rewrite <- Z.pow_add_r by lia. change 4 with (2 ^ 2). rewrite <- Z.pow_mul_r by lia.
    f_equal. lia.
  - cbn [SpecFloat.iter_pos]. rewrite IH, IH by (try rewrite IH; try apply Z.div_pos; try lia).
    rewrite !Z.div_div by lia. f_equal.
    rewrite Pos2Z.inj_xO. rewrite <- Z.pow_add_r by lia. f_equal. lia.
  - cbn [SpecFloat.iter_pos]. rewrite shr_m_shr_1 by exact Hr. reflexivity.
Qed.

Lemma shr_m_record_of_loc m l : shr_m (shr_record_of_loc m l) = m.
Proof. destruct l as [|[| |]]; reflexivity. Qed.

(** [shr_fexp] divides the mantissa by a power of two and raises the
    exponent by as much. *)
Lemma shr_fexp_spec m e l :
  0 <= m ->
  let n := Z.max 0 (fexp prec emax (Zdigits2 m + e) - e) in
  shr_m (fst (shr_fexp prec emax m e l)) = m / 2 ^ n
  /\ snd (shr_fexp prec emax m e l) = e + n.
Proof.
  intros Hm n. unfold shr_fexp, shr. fold (fexp prec emax (Zdigits2 m + e)).
  subst n. destruct (fexp prec emax (Zdigits2 m + e) - e) as [|p|p] eqn:Hn.
  - simpl. rewrite shr_m_record_of_loc, Z.div_1_r. split; [reflexivity | lia].
  - cbn [fst snd]. rewrite shr_m_iter_shr_1 by (rewrite shr_m_record_of_loc; exact Hm).
    rewrite shr_m_record_of_loc. replace (Z.max 0 (Zpos p)) with (Zpos p) by lia.
    split; reflexivity.
  - simpl. rewrite shr_m_record_of_loc, Z.div_1_r. split; [reflexivity | lia].
Qed.

Lemma round_nearest_even_bounds m l :
  m <= round_nearest_even m l <= m + 1.
Proof.
  unfold round_nearest_even. destruct l as [|[| |]]; try lia.
  destruct (Z.even m); lia.
Qed.

(** Dividing by a power of two no larger than the leading bit leaves a
    positive quotient. *)
Lemma div_pow2_pos m n :
  0 < m -> 0 <= n <= Z.log2 m -> 0 < m / 2 ^ n.
Proof.
  intros Hm Hn. apply Z.lt_le_trans with 1; [lia|].
  apply Z.div_le_lower_bound; [apply Z.pow_pos_nonneg; lia|].
  rewrite Z.mul_1_r. apply Z.le_trans with (2 ^ Z.log2 m).
  - apply Z.pow_le_mono_r; lia.
  - apply Z.log2_spec, Hm.
Qed.

Lemma Zdigits2_pos_log2 m : 0 < m -> Zdigits2 m = Z.log2 m + 1.
Proof. destruct m; try lia. intros _. apply Zdigits2_log2. Qed.

Lemma binary_round_aux_nonneg mx ex lx :
  0 <= mx -> Num.SF_nonneg (binary_round_aux prec emax false mx ex lx) = true.
Proof.
  intros Hmx. unfold binary_round_aux.
  destruct (shr_fexp_spec mx ex lx Hmx) as [Hm1 He1].
  destruct (shr_fexp prec emax mx ex lx) as [mrs1 e1]. cbn [fst snd] in Hm1, He1.
  set (m2 := round_nearest_even (shr_m mrs1) (loc_of_shr_record mrs1)).
  assert (Hm2 : 0 <= m2).
  { pose proof (round_nearest_even_bounds (shr_m mrs1) (loc_of_shr_record mrs1)).
    assert (0 <= shr_m mrs1) by (rewrite Hm1; apply Z.div_pos; [lia | apply Z.pow_pos_nonneg; lia]).
    unfold m2. lia. }
  destruct (shr_fexp_spec m2 e1 loc_Exact Hm2) as [Hm3 He3].
  destruct (shr_fexp prec emax m2 e1 loc_Exact) as [mrs3 e3]. cbn [fst snd] in Hm3, He3.
  assert (H3 : 0 <= shr_m mrs3)
    by (rewrite Hm3; apply Z.div_pos; [lia | apply Z.pow_pos_nonneg; lia]).
  destruct (shr_m mrs3); [reflexivity | | lia].
  destruct (e3 <=? emax - prec); reflexivity.
Qed.

(** A positive mantissa whose leading bit is at or above [2^0] rounds to a
    value with exponent at least [-52], or to [+Infinity]. *)
Lemma binary_round_aux_ge1 mx ex lx :
  0 < mx -> 1 <= Zdigits2 mx + ex ->
  Num.SF_ge1 (binary_round_aux prec emax false mx ex lx) = true.
Proof.
  intros Hmx HD. unfold binary_round_aux.
  destruct (shr_fexp_spec mx ex lx ltac:(lia)) as [Hm1 He1].
  destruct (shr_fexp prec emax mx ex lx) as [mrs1 e1]. cbn [fst snd] in Hm1, He1.
  rewrite fexp_eq in Hm1, He1. rewrite (Zdigits2_pos_log2 mx Hmx) in *.
  pose proof (Z.log2_nonneg mx) as Hlogx.
  assert (H1 : 0 < shr_m mrs1) by (rewrite Hm1; apply div_pow2_pos; lia).
  set (m2 := round_nearest_even (shr_m mrs1) (loc_of_shr_record mrs1)).
  assert (Hm2 : 0 < m2).
  { pose proof (round_nearest_even_bounds (shr_m mrs1) (loc_of_shr_record mrs1)).
    unfold m2. lia. }
  destruct (shr_fexp_spec m2 e1 loc_Exact ltac:(lia)) as [Hm3 He3].
  destruct (shr_fexp prec emax m2 e1 loc_Exact) as [mrs3 e3]. cbn [fst snd] in Hm3, He3.
  rewrite fexp_eq in Hm3, He3. rewrite (Zdigits2_pos_log2 m2 Hm2) in *.
  pose proof (Z.log2_nonneg m2) as Hlog.
  assert (H3 : 0 < shr_m mrs3) by (rewrite Hm3; apply div_pow2_pos; lia).
  destruct (shr_m mrs3); try lia.
  destruct (e3 <=? emax - prec); [|reflexivity].
  simpl. apply Z.leb_le. lia.
Qed.

Lemma shl_align_digits m e e' :
  Zdigits2 (Zpos (fst (shl_align m e e'))) + snd (shl_align m e e') = Zdigits2 (Zpos m) + e
  /\ snd (shl_align m e e') = Z.min e e'
  /\ Zpos m <= Zpos (fst (shl_align m e e')).
Proof.
  unfold shl_align. destruct (e' - e) as [|d|d] eqn:Hd; cbn [fst snd].
  - repeat split; lia.
  - repeat split; lia.
  - rewrite !Zdigits2_log2, iter_xO_pow, Z.log2_mul_pow2 by lia.
    repeat split; try lia.
    assert (0 < 2 ^ Zpos d) by (apply Z.pow_pos_nonneg; lia). nia.
Qed.

Lemma valid_ge1_digits m e :
  valid_binary (S754_finite false m e) = true -> -52 <= e ->
  Zdigits2 (Zpos m) + e = 53 + e.
Proof.
  unfold SpecFloat.valid_binary, bounded, canonical_mantissa. intros H He.
  apply andb_prop in H as [H _]. apply Z.eqb_eq in H.
  rewrite fexp_eq in H. unfold Zdigits2. lia.
Qed.

Lemma SFadd_ge1 x y :
  valid_binary x = true -> Num.SF_ge1 x = true -> Num.SF_nonneg y = true ->
  Num.SF_ge1 (SF64add x y) = true.
Proof.
  intros Hv Hx Hy.
  destruct x as [[|]|[|]| |[|] mx ex]; try discriminate;
    destruct y as [[|]|[|]| |[|] my ey]; try discriminate; try exact Hx; try reflexivity.
  simpl in Hx. apply Z.leb_le in Hx.
  unfold SF64add, SFadd. cbn [cond_Zopp].
  set (ez := Z.min ex ey).
  destruct (shl_align_digits mx ex ez) as [Hdx [_ _]].
  destruct (shl_align_digits mx ex ez) as [_ [Hsx _]].
  set (mx' := fst (shl_align mx ex ez)) in *.
  set (my' := fst (shl_align my ey ez)) in *.
  replace (snd (shl_align mx ex ez)) with ez in Hdx by (rewrite Hsx; unfold ez; lia).
  change (Zpos mx' + Zpos my') with (Zpos (mx' + my')).
  unfold binary_normalize, binary_round.
  destruct (shl_align_digits (mx' + my') ez (fexp prec emax (Zpos (digits2_pos (mx' + my')) + ez)))
    as [Hds [_ _]].
  destruct (shl_align (mx' + my') ez _) as [mz ez']. cbn [fst snd] in Hds.
  apply binary_round_aux_ge1; [lia|].
  rewrite Hds. rewrite (valid_ge1_digits mx ex Hv Hx) in Hdx.
  rewrite !Zdigits2_log2 in *.
  assert (Z.log2 (Zpos mx') <= Z.log2 (Zpos (mx' + my'))) by (apply Z.log2_le_mono; lia).
  lia.
Qed.

Lemma SFdiv_one_nonneg y :
  Num.SF_nonneg y = true -> Num.SF_nonneg (SF64div (Prim2SF 1) y) = true.
Proof.
  intros Hy. change (Prim2SF 1) with (S754_finite false 4503599627370496 (-52)).
  destruct y as [[|]|[|]| |[|] my ey]; try discriminate; try reflexivity.
  unfold SF64div, SFdiv. cbn [xorb].
  unfold SFdiv_core_binary.
  set (m' := match _ with Z0 => _ | Zpos _ => _ | Zneg _ => _ end).
  assert (Hm' : 0 <= m').
  { unfold m'. destruct (_ - _ - _) as [|p|p]; try lia. apply Z.shiftl_nonneg. lia. }
  pose proof (Z.div_pos m' (Zpos my) Hm' ltac:(lia)) as Hq.
  unfold Z.div in Hq. destruct (Z.div_eucl m' (Zpos my)) as [q r]. cbn [fst] in Hq.
  apply binary_round_aux_nonneg, Hq.
Qed.

Lemma SF_ge1_leb x :
  valid_binary x = true -> Num.SF_ge1 x = true -> SFleb (Prim2SF 1) x = true.
Proof.
  intros Hv Hx. change (Prim2SF 1) with (S754_finite false 4503599627370496 (-52)).
  destruct x as [[|]|[|]| |[|] mx ex]; try discriminate; try reflexivity.
  simpl in Hx. apply Z.leb_le in Hx.
  pose proof (valid_ge1_digits mx ex Hv Hx) as Hd. rewrite Zdigits2_log2 in Hd.
  unfold SFleb, SFcompare.
  destruct (Z.compare_spec (-52) ex) as [<- | Hlt | Hgt]; [| reflexivity | lia].
  assert (Hm : 4503599627370496 <= Zpos mx).
  { pose proof (Z.log2_spec (Zpos mx) ltac:(lia)) as [Hlo _].
    replace (Z.log2 (Zpos mx)) with 52 in Hlo by lia. exact Hlo. }
  change (Pos.compare_cont Eq 4503599627370496 mx) with (Pos.compare 4503599627370496 mx).
  destruct (Pos.compare_spec 4503599627370496 mx) as [Heq | Hlt | Hgt]; try reflexivity.
  exfalso. apply Pos2Z.pos_lt_pos in Hgt.
  exact (Z.lt_irrefl _ (Z.le_lt_trans _ _ _ Hm Hgt)).
Qed.

End Rounding.

(** ** The series is at least its first term *)

Section AtLeastOne.

Variable ap : float -> float -> float.

Local Open Scope float_scope.

Lemma add_keeps_ge1 x y :
  Num.SF_ge1 (Prim2SF x) = true -> Num.is_nonneg y = true ->
  Num.SF_ge1 (Prim2SF (x + y)) = true.
Proof.
  intros Hx Hy. rewrite add_spec.
  apply SFadd_ge1; [apply Prim2SF_valid | exact Hx | exact Hy].
Qed.

Lemma div_one_nonneg p : Num.is_nonneg p = true -> Num.is_nonneg (1 / p) = true.
Proof.
  unfold Num.is_nonneg. intros Hp. rewrite div_spec. apply SFdiv_one_nonneg, Hp.
Qed.

Lemma ge1_leb x : Num.SF_ge1 (Prim2SF x) = true -> (1 <=? x) = true.
Proof.
  intros Hx. rewrite leb_spec. apply SF_ge1_leb; [apply Prim2SF_valid | exact Hx].
Qed.

Lemma fold_add_term_ge1 s ks :
  (forall k, In k ks -> Num.is_nonneg (Math_pow ap k s) = true) ->
  forall sum, Num.SF_ge1 (Prim2SF sum) = true ->
  Num.SF_ge1 (Prim2SF (fold_left (add_term ap s) ks sum)) = true.
Proof.
  induction ks as [|k ks IH]; intros Hks sum Hsum; simpl; [exact Hsum|].
  apply IH.
  - intros k' Hin. apply Hks. right. exact Hin.
  - unfold add_term. apply add_keeps_ge1; [exact Hsum|].
    apply div_one_nonneg, Hks. left. reflexivity.
Qed.

(** For a finite exponent the power of a positive finite base is 1 at
    [+0] and [-0] and the engine's value elsewhere. *)
Lemma Math_pow_finite_exponent base s :
  is_positive_finite base = true -> Num.is_finite s = true ->
  Math_pow ap base s = if is_finite_nonzero s then ap base s else 1.
Proof.
  intros Hb Hs. destruct (is_finite_nonzero s) eqn:Hnz.
  - apply Math_pow_approximated; assumption.
  - unfold Num.is_finite in Hs. unfold is_finite_nonzero in Hnz. unfold Math_pow.
    destruct (Prim2SF s); try discriminate. reflexivity.
Qed.

Lemma tl_indices : tl indices = map Num.of_Z (seqZ 2 998).
Proof. vm_compute. reflexivity. Qed.

Lemma tl_indices_range k :
  In k (tl indices) -> exists z, (2 <= z <= 999)%Z /\ k = Num.of_Z z.
Proof.
  rewrite tl_indices. intros Hin. apply in_map_iff in Hin as [z [<- Hz]].
  exists z. split; [|reflexivity].
  apply list_elem_of_In, elem_of_seqZ in Hz. lia.
Qed.

Lemma series_summation_ge1 s :
  Math_pow ap 1 s = 1 ->
  (forall k, (2 <= k <= 999)%Z -> Num.is_nonneg (Math_pow ap (Num.of_Z k) s) = true) ->
  (1 <=? series_summation ap s) = true.
Proof.
  intros H1 Hk. apply ge1_leb. unfold series_summation.
  rewrite indices_cons. cbn [fold_left]. apply fold_add_term_ge1.
  - intros k Hin. destruct (tl_indices_range k Hin) as [z [Hz ->]]. apply Hk, Hz.
  - unfold add_term. rewrite H1. vm_compute. reflexivity.
Qed.

End AtLeastOne.


(** ** The claims about the series and about one call *)

(** C2. For every exponent [s], [zeta] returns the floating-point
    accumulation of [1 / k^s] for [k] from 1 to 999 inclusive, added in
    increasing order of [k] to an accumulator that starts at 0. *)
Theorem zeta_is_series (ap : float -> float -> float) (s : float) (fuel : nat) :
  (1000 <= fuel)%nat ->
  zeta ap fuel s
  = Normal (fold_left (fun sum k => sum + 1 / Math_pow ap (Num.of_Z k) s)%float
                      (seqZ 1 999) 0%float).
Proof.
  intros Hfuel. rewrite (zeta_normal ap s fuel Hfuel).
  unfold series_summation, indices. rewrite fold_left_map_of_Z. reflexivity.
Qed.

Lemma zeta_is_series_witness :
  zeta Engine.approximate_pow 1000 2
  = Normal (fold_left (fun sum k => sum + 1 / Math_pow Engine.approximate_pow (Num.of_Z k) 2)%float
                      (seqZ 1 999) 0%float).
Proof. apply (zeta_is_series Engine.approximate_pow 2 1000). lia. Defined.

(** C3, as the code has it. Every call of [zeta] adds exactly 999 terms,
    those of [k = 1, ..., 999]: the constant [n = 1000] is the exclusive
    bound of the loop. *)
Theorem zeta_adds_999_terms (ap : float -> float -> float) (s : float) (fuel : nat) :
  (1000 <= fuel)%nat ->
  exists terms : list float,
    zeta_terms ap fuel s = Normal terms
    /\ length terms = 999%nat
    /\ terms_added ap fuel s = Some 999%nat
    /\ zeta ap fuel s = Normal (fold_left PrimFloat.add terms 0%float).
Proof.
  intros Hfuel. exists (map (fun k => 1 / Math_pow ap k s)%float indices).
  assert (Hlen : length (map (fun k => 1 / Math_pow ap k s)%float indices) = 999%nat)
    by (rewrite length_map; apply length_indices).
  split; [apply zeta_terms_normal, Hfuel|].
  split; [exact Hlen|].
  split.
  - unfold terms_added. rewrite (zeta_terms_normal ap s fuel Hfuel), Hlen. reflexivity.
  - rewrite (zeta_normal ap s fuel Hfuel). unfold series_summation.
    rewrite fold_add_terms. reflexivity.
Qed.

Lemma zeta_adds_999_terms_witness :
  exists terms : list float,
    zeta_terms Engine.approximate_pow 1000 2 = Normal terms
    /\ length terms = 999%nat
    /\ terms_added Engine.approximate_pow 1000 2 = Some 999%nat
    /\ zeta Engine.approximate_pow 1000 2 = Normal (fold_left PrimFloat.add terms 0%float).
Proof. apply (zeta_adds_999_terms Engine.approximate_pow 2 1000). lia. Defined.

(** C3, as stated, fails: whatever the exponent and the engine's power,
    the number of terms added is 999, which is not 1000. *)
Lemma zeta_does_not_add_1000_terms :
  (forall (ap : float -> float -> float) (s : float),
      terms_added ap 1000 s = Some 999%nat)
  /\ terms_added Engine.approximate_pow 1000 2 = Some 999%nat
  /\ (999 =? 1000)%nat = false.
Proof.
  split; [|split; [|reflexivity]].
  - intros ap s. unfold terms_added.
    rewrite (zeta_terms_normal ap s 1000 (le_n _)), length_map, length_indices.
    reflexivity.
  - unfold terms_added.
    rewrite (zeta_terms_normal Engine.approximate_pow 2 1000 (le_n _)), length_map, length_indices.
    reflexivity.
Qed.

(** C7. Two calls with the same input show the same text: the text depends
    on the content of the input field only, not on the rest of the page,
    on what the output element held before, or on an earlier call. *)
Theorem calculate_deterministic
    (ap : float -> float -> float) (fuel : nat) (d1 d2 : Document)
    (time1 time2 out1 out2 : Element) :
  d1 !! "time"%string = Some time1 ->
  d2 !! "time"%string = Some time2 ->
  value time1 = value time2 ->
  d1 !! "output"%string = Some out1 ->
  d2 !! "output"%string = Some out2 ->
  (1000 <= fuel)%nat ->
  exists (text : string) (d1' : Document),
    calculate ap fuel d1 = Normal d1'
    /\ displayed (calculate ap fuel d1) = Some text
    /\ displayed (calculate ap fuel d2) = Some text
    /\ displayed (calculate ap fuel d1') = Some text.
Proof.
  intros Ht1 Ht2 Hv Ho1 Ho2 Hfuel.
  pose proof (calculate_normal ap fuel d1 time1 out1 Ht1 Ho1 Hfuel) as Hc1.
  pose proof (displayed_calculate ap fuel d1 time1 out1 Ht1 Ho1 Hfuel) as Hd1.
  pose proof (displayed_calculate ap fuel d2 time2 out2 Ht2 Ho2 Hfuel) as Hd2.
  cbv zeta in Hc1, Hd1, Hd2. rewrite <- Hv in Hd2.
  set (text := ("E(t) ≈ " ++ _)%string) in Hc1, Hd1, Hd2.
  exists text, (<["output"%string := set_innerText text out1]> d1).
  split; [exact Hc1|]. split; [exact Hd1|]. split; [exact Hd2|].
  apply (displayed_calculate ap fuel (<["output"%string := set_innerText text out1]> d1)
           time1 (set_innerText text out1)).
  - rewrite lookup_insert_ne by discriminate. exact Ht1.
  - apply lookup_insert_eq.
  - exact Hfuel.
Qed.

Lemma calculate_deterministic_witness :
  exists (text : string) (d1' : Document),
    calculate Engine.approximate_pow 1000 (page "2.5") = Normal d1'
    /\ displayed (calculate Engine.approximate_pow 1000 (page "2.5")) = Some text
    /\ displayed (calculate Engine.approximate_pow 1000
                    (<["output"%string := {| value := "x"; innerText := "E(t) ≈ 0.000000" |}]>
                       (<["other"%string := {| value := "7"; innerText := "7" |}]> (page "2.5"))))
       = Some text
    /\ displayed (calculate Engine.approximate_pow 1000 d1') = Some text.
Proof.
  apply (calculate_deterministic Engine.approximate_pow 1000 _ _
           {| value := "2.5"; innerText := EmptyString |}
           {| value := "2.5"; innerText := EmptyString |}
           {| value := EmptyString; innerText := EmptyString |}
           {| value := "x"; innerText := "E(t) ≈ 0.000000" |}).
  - vm_compute. reflexivity.
  - vm_compute. reflexivity.
  - reflexivity.
  - vm_compute. reflexivity.
  - vm_compute. reflexivity.
  - lia.
Defined.

(** C8. Every call terminates. The loop of [zeta] makes exactly 1000 tests
    of [k < n] whatever the exponent (999 that succeed and the one that
    ends it), and [calculate] completes, normally or with the TypeError of
    a page that lacks one of the two elements. *)
Theorem calculate_terminates
    (ap : float -> float -> float) (fuel : nat) (document : Document) :
  (1000 <= fuel)%nat ->
  (forall s, zeta ap 999 s = OutOfFuel /\ exists sum, zeta ap fuel s = Normal sum)
  /\ ((exists document', calculate ap fuel document = Normal document')
      \/ calculate ap fuel document = Throw TypeError)
  /\ (is_Some (document !! "time"%string) ->
      is_Some (document !! "output"%string) ->
      exists document', calculate ap fuel document = Normal document').
Proof.
  intros Hfuel. split; [|split].
  - intros s. split.
    + apply zeta_out_of_fuel. lia.
    + eexists. apply zeta_normal, Hfuel.
  - apply calculate_completes, Hfuel.
  - intros [time Ht] [output Ho]. eexists.
    apply (calculate_normal ap fuel document time output Ht Ho Hfuel).
Qed.

Lemma calculate_terminates_witness :
  (forall s, zeta Engine.approximate_pow 999 s = OutOfFuel
             /\ exists sum, zeta Engine.approximate_pow 1000 s = Normal sum)
  /\ ((exists document', calculate Engine.approximate_pow 1000 (page "1e21") = Normal document')
      \/ calculate Engine.approximate_pow 1000 (page "1e21") = Throw TypeError)
  /\ (is_Some (page "1e21" !! "time"%string) ->
      is_Some (page "1e21" !! "output"%string) ->
      exists document', calculate Engine.approximate_pow 1000 (page "1e21") = Normal document').
Proof. apply (calculate_terminates Engine.approximate_pow 1000 (page "1e21")). lia. Defined.

(** C9. [zeta] is total: for every Number [s] it returns a Number and
    throws nothing; at NaN and at the two infinities the value returned is
    NaN. *)
Theorem zeta_total (ap : float -> float -> float) (s : float) (fuel : nat) :
  (1000 <= fuel)%nat ->
  (exists sum, zeta ap fuel s = Normal sum)
  /\ zeta ap fuel nan = Normal nan
  /\ zeta ap fuel infinity = Normal nan
  /\ zeta ap fuel neg_infinity = Normal nan.
Proof.
  intros Hfuel.
  split; [exists (series_summation ap s); apply zeta_normal, Hfuel|].
  split; [|split]; apply (zeta_nan ap _ fuel Hfuel).
  - apply Math_pow_nan_exponent.
  - apply Math_pow_one_infinite. left. reflexivity.
  - apply Math_pow_one_infinite. right. reflexivity.
Qed.

Lemma zeta_total_witness :
  (exists sum, zeta Engine.approximate_pow 1000 (-3.5) = Normal sum)
  /\ zeta Engine.approximate_pow 1000 nan = Normal nan
  /\ zeta Engine.approximate_pow 1000 infinity = Normal nan
  /\ zeta Engine.approximate_pow 1000 neg_infinity = Normal nan.
Proof. apply (zeta_total Engine.approximate_pow (-3.5) 1000). lia. Defined.

(** C4. A non-numeric input (the empty string is one) raises no error: it
    parses to NaN, NaN goes through [s = 1 + t * 1e-6], through [zeta] and
    through [E = t * zeta(s)], and the text shown is ["E(t) ≈ NaN"]. *)
Theorem calculate_non_numeric
    (ap : float -> float -> float) (fuel : nat) (document : Document)
    (time output : Element) :
  document !! "time"%string = Some time ->
  document !! "output"%string = Some output ->
  (1000 <= fuel)%nat ->
  non_numeric (value time) ->
  let t := Parse.parseFloat (value time) in
  let s := (1 + t * 1e-6)%float in
  t = nan
  /\ s = nan
  /\ (exists realZeta : float,
        zeta ap fuel s = Normal realZeta
        /\ realZeta = nan
        /\ (t * realZeta)%float = nan)
  /\ calculate ap fuel document
     = Normal (<["output"%string := set_innerText "E(t) ≈ NaN" output]> document)
  /\ displayed (calculate ap fuel document) = Some "E(t) ≈ NaN"%string.
Proof.
  intros Ht Ho Hfuel Hnn t s.
  assert (Htnan : t = nan) by (apply parseFloat_non_numeric, Hnn).
  assert (Hsnan : s = nan) by (unfold s; rewrite Htnan, mul_nan_l, add_nan_r; reflexivity).
  split; [exact Htnan|]. split; [exact Hsnan|].
  split.
  - exists nan. split; [|split; [reflexivity | apply mul_nan_r]].
    rewrite Hsnan. apply (zeta_nan ap nan fuel Hfuel), Math_pow_nan_exponent.
  - apply (displayed_non_numeric ap fuel document time output Ht Ho Hfuel Hnn).
Qed.

Lemma calculate_non_numeric_witness :
  let t := Parse.parseFloat "" in
  let s := (1 + t * 1e-6)%float in
  t = nan
  /\ s = nan
  /\ (exists realZeta : float,
        zeta Engine.approximate_pow 1000 s = Normal realZeta
        /\ realZeta = nan
        /\ (t * realZeta)%float = nan)
  /\ calculate Engine.approximate_pow 1000 (page "")
     = Normal (<["output"%string :=
                  set_innerText "E(t) ≈ NaN"
                    {| value := EmptyString; innerText := EmptyString |}]> (page ""))
  /\ displayed (calculate Engine.approximate_pow 1000 (page "")) = Some "E(t) ≈ NaN"%string.
Proof.
  apply (calculate_non_numeric Engine.approximate_pow 1000 (page "")
           {| value := ""; innerText := EmptyString |}
           {| value := EmptyString; innerText := EmptyString |}).
  - vm_compute. reflexivity.
  - vm_compute. reflexivity.
  - lia.
  - apply looks_numeric_false. vm_compute. reflexivity.
Defined.

(** C6. For the input 0 the exponent is 1; where the engine has [k^1 = k],
    the series is the 999-term harmonic partial sum, a finite value between
    7.484 and 7.485; [E = 0 * sum = 0], shown as ["0.000000"]. *)
Theorem calculate_at_zero
    (ap : float -> float -> float) (fuel : nat) (document : Document)
    (time output : Element) :
  document !! "time"%string = Some time ->
  document !! "output"%string = Some output ->
  (1000 <= fuel)%nat ->
  Parse.parseFloat (value time) = 0%float ->
  (forall k, (1 <= k <= 999)%Z -> ap (Num.of_Z k) 1%float = Num.of_Z k) ->
  let t := 0%float in
  let s := (1 + t * 1e-6)%float in
  s = 1%float
  /\ exists sum : float,
      zeta ap fuel s = Normal sum
      /\ sum = harmonic_999
      /\ Num.is_finite sum = true
      /\ (7.484 <? sum)%float = true
      /\ (sum <? 7.485)%float = true
      /\ (t * sum)%float = 0%float
      /\ Fmt.Number_toFixed (t * sum)%float 6 = Normal "0.000000"%string
      /\ displayed (calculate ap fuel document) = Some "E(t) ≈ 0.000000"%string.
Proof.
  intros Ht Ho Hfuel Hzero Hap t s.
  assert (Hs : s = 1%float) by (vm_compute; reflexivity).
  split; [exact Hs|]. exists harmonic_999.
  pose proof (displayed_calculate ap fuel document time output Ht Ho Hfuel) as Hd.
  cbv zeta in Hd. rewrite Hzero in Hd. fold t in Hd. fold s in Hd.
  rewrite Hs, (series_summation_one ap Hap), harmonic_999_value in Hd.
  rewrite Hs, (zeta_normal ap 1 fuel Hfuel), (series_summation_one ap Hap).
  rewrite harmonic_999_value.
  split; [reflexivity|]. split; [reflexivity|].
  split; [vm_compute; reflexivity|]. split; [vm_compute; reflexivity|].
  split; [vm_compute; reflexivity|]. split; [vm_compute; reflexivity|].
  split; [vm_compute; reflexivity|].
  rewrite Hd. vm_compute. reflexivity.
Qed.

Lemma calculate_at_zero_witness :
  let t := 0%float in
  let s := (1 + t * 1e-6)%float in
  s = 1%float
  /\ exists sum : float,
      zeta Engine.approximate_pow 1000 s = Normal sum
      /\ sum = harmonic_999
      /\ Num.is_finite sum = true
      /\ (7.484 <? sum)%float = true
      /\ (sum <? 7.485)%float = true
      /\ (t * sum)%float = 0%float
      /\ Fmt.Number_toFixed (t * sum)%float 6 = Normal "0.000000"%string
      /\ displayed (calculate Engine.approximate_pow 1000 (page "0"))
         = Some "E(t) ≈ 0.000000"%string.
Proof.
  apply (calculate_at_zero Engine.approximate_pow 1000 (page "0")
           {| value := "0"; innerText := EmptyString |}
           {| value := EmptyString; innerText := EmptyString |}).
  - vm_compute. reflexivity.
  - vm_compute. reflexivity.
  - lia.
  - vm_compute. reflexivity.
  - intros k Hk. apply FloatAxioms.Leibniz.eqb_spec.
    apply (forallb_range
             (fun z => PrimFloat.Leibniz.eqb (Engine.approximate_pow (Num.of_Z z) 1%float) (Num.of_Z z)));
      [vm_compute; reflexivity | exact Hk].
Defined.

(** C5, as the code has it. When [E] is finite and below [10^21] in
    absolute value, the text written has exactly 6 digits after the decimal
    point: an optional minus sign, the digits of the integral part, a
    point, and six digits. *)
Theorem calculate_six_decimals
    (ap : float -> float -> float) (fuel : nat) (document : Document)
    (time output : Element) :
  document !! "time"%string = Some time ->
  document !! "output"%string = Some output ->
  (1000 <= fuel)%nat ->
  let t := Parse.parseFloat (value time) in
  let E := (t * series_summation ap (1 + t * 1e-6))%float in
  Num.is_finite E = true ->
  (Qabs (Num.F2Q E) < Num.pow10 21)%Q ->
  exists fixed sg a b : string,
    Fmt.Number_toFixed E 6 = Normal fixed
    /\ displayed (calculate ap fuel document) = Some ("E(t) ≈ " ++ fixed)%string
    /\ fixed = (sg ++ a ++ "." ++ b)%string
    /\ (sg = EmptyString \/ sg = "-"%string)
    /\ all_digits a = true /\ Str.is_empty a = false
    /\ all_digits b = true /\ String.length b = 6%nat
    /\ fraction_digits fixed = Some 6%nat
    /\ fraction_digits ("E(t) ≈ " ++ fixed)%string = Some 6%nat.
Proof.
  intros Ht Ho Hfuel t E Hfin Hlt.
  destruct (fixed_string_fraction E 6 ltac:(lia) Hfin Hlt)
    as [sg [a [b [Hshape [Hsg [Ha [Hne [Hb [Hlen Hfrac]]]]]]]]].
  exists (Fmt.fixed_string E 6), sg, a, b.
  split; [apply Number_toFixed_6|].
  split; [apply (displayed_calculate ap fuel document time output Ht Ho Hfuel)|].
  repeat (split; [assumption|]).
  rewrite fraction_digits_display. exact Hfrac.
Qed.

Lemma calculate_six_decimals_witness :
  exists fixed sg a b : string,
    Fmt.Number_toFixed
      (Parse.parseFloat "2.5"
       * series_summation Engine.approximate_pow (1 + Parse.parseFloat "2.5" * 1e-6))%float 6
    = Normal fixed
    /\ displayed (calculate Engine.approximate_pow 1000 (page "2.5"))
       = Some ("E(t) ≈ " ++ fixed)%string
    /\ fixed = (sg ++ a ++ "." ++ b)%string
    /\ (sg = EmptyString \/ sg = "-"%string)
    /\ all_digits a = true /\ Str.is_empty a = false
    /\ all_digits b = true /\ String.length b = 6%nat
    /\ fraction_digits fixed = Some 6%nat
    /\ fraction_digits ("E(t) ≈ " ++ fixed)%string = Some 6%nat.
Proof.
  apply (calculate_six_decimals Engine.approximate_pow 1000 (page "2.5")
           {| value := "2.5"; innerText := EmptyString |}
           {| value := EmptyString; innerText := EmptyString |}).
  - vm_compute. reflexivity.
  - vm_compute. reflexivity.
  - lia.
  - vm_compute. reflexivity.
  - vm_compute. reflexivity.
Defined.

(** C5, as stated, fails. An empty input field gives the text
    ["E(t) ≈ NaN"] with every engine, and from [10^21] on [toFixed] answers
    in exponent notation: neither has six digits after a decimal point. *)
Lemma calculate_without_six_decimals :
  (forall ap : float -> float -> float,
      displayed (calculate ap 1000 (page "")) = Some "E(t) ≈ NaN"%string)
  /\ fraction_digits "E(t) ≈ NaN" = None
  /\ displayed (calculate Engine.approximate_pow 1000 (page "1e21"))
     = Some "E(t) ≈ 1e+21"%string
  /\ fraction_digits "E(t) ≈ 1e+21" = None
  /\ Fmt.Number_toFixed 1.2345678e25 6 = Normal "1.2345678e+25"%string
  /\ fraction_digits "1.2345678e+25" = None.
Proof.
  split.
  - intros ap.
    apply (displayed_non_numeric ap 1000 (page "")
             {| value := ""; innerText := EmptyString |}
             {| value := EmptyString; innerText := EmptyString |}).
    + vm_compute. reflexivity.
    + vm_compute. reflexivity.
    + lia.
    + apply looks_numeric_false. vm_compute. reflexivity.
  - repeat split; vm_compute; reflexivity.
Qed.

(** C10. For every finite [s], [zeta(s) >= 1], where the engine's power
    has [1^s = 1] and gives, for [k = 2, ..., 999], a [k^s] that is not NaN
    and has a clear sign bit: the term of [k = 1] is exactly 1, and every
    other term [1 / k^s] is [+0], positive or [+Infinity]. *)
Theorem zeta_at_least_one (ap : float -> float -> float) (s : float) (fuel : nat) :
  (1000 <= fuel)%nat ->
  Num.is_finite s = true ->
  (is_finite_nonzero s = true -> ap 1%float s = 1%float) ->
  (is_finite_nonzero s = true ->
   forall k, (2 <= k <= 999)%Z -> Num.is_nonneg (ap (Num.of_Z k) s) = true) ->
  Math_pow ap 1 s = 1%float
  /\ (0 + 1 / Math_pow ap 1 s)%float = 1%float
  /\ (forall k, (2 <= k <= 999)%Z ->
      Num.is_nonneg (1 / Math_pow ap (Num.of_Z k) s)%float = true)
  /\ exists sum : float, zeta ap fuel s = Normal sum /\ (1 <=? sum)%float = true.
Proof.
  intros Hfuel Hfin Hone Hk.
  assert (H1 : Math_pow ap 1 s = 1%float).
  { rewrite Math_pow_finite_exponent by (exact Hfin || reflexivity).
    destruct (is_finite_nonzero s); [apply Hone|]; reflexivity. }
  assert (Hpow : forall k, (2 <= k <= 999)%Z ->
                           Num.is_nonneg (Math_pow ap (Num.of_Z k) s) = true).
  { intros k Hrange. rewrite Math_pow_finite_exponent; [| |exact Hfin].
    - destruct (is_finite_nonzero s); [apply Hk; [reflexivity | exact Hrange] | reflexivity].
    - pose proof indices_positive_finite as Hall. rewrite forallb_forall in Hall.
      apply Hall. unfold indices. apply in_map, list_elem_of_In, elem_of_seqZ. lia. }
  split; [exact H1|].
  split; [rewrite H1; vm_compute; reflexivity|].
  split; [intros k Hrange; apply div_one_nonneg, Hpow, Hrange|].
  exists (series_summation ap s).
  split; [apply zeta_normal, Hfuel | apply series_summation_ge1; assumption].
Qed.

Lemma zeta_at_least_one_witness :
  Math_pow Engine.approximate_pow 1 (-3.5) = 1%float
  /\ (0 + 1 / Math_pow Engine.approximate_pow 1 (-3.5))%float = 1%float
  /\ (forall k, (2 <= k <= 999)%Z ->
      Num.is_nonneg (1 / Math_pow Engine.approximate_pow (Num.of_Z k) (-3.5))%float = true)
  /\ exists sum : float,
      zeta Engine.approximate_pow 1000 (-3.5) = Normal sum /\ (1 <=? sum)%float = true.
Proof.
  apply (zeta_at_least_one Engine.approximate_pow (-3.5) 1000).
  - lia.
  - vm_compute. reflexivity.
  - intros _. vm_compute. reflexivity.
  - intros _ k Hk.
    apply (forallb_range
             (fun z => Num.is_nonneg (Engine.approximate_pow (Num.of_Z z) (-3.5))));
      [vm_compute; reflexivity | lia].
Defined.

(** * Further properties of the script *)

(** ** What one call does to the page *)

Section PageEffects.

Variable ap : float -> float -> float.

(** A call that returns has found both elements and has replaced the text
    of the output element, nothing else. *)
Lemma calculate_Normal_inv fuel (document document' : Document) :
  calculate ap fuel document = Normal document' ->
  exists (time output : Element) (sum : float),
    document !! "time"%string = Some time
    /\ document !! "output"%string = Some output
    /\ zeta ap fuel (1 + Parse.parseFloat (value time) * 1e-6)%float = Normal sum
    /\ document'
       = <["output"%string :=
            set_innerText
              ("E(t) ≈ " ++ Fmt.fixed_string (Parse.parseFloat (value time) * sum)%float 6)%string
              output]> document.
Proof.
  unfold calculate, getElementById. intros H.
  destruct (document !! "time"%string) as [time|] eqn:Ht; [|discriminate].
  cbn [non_null bind] in H.
  destruct (zeta ap fuel _) as [sum| |] eqn:Hz; try discriminate.
  cbn [bind] in H.
  destruct (document !! "output"%string) as [output|] eqn:Ho; [|discriminate].
  cbn [non_null bind] in H. rewrite Number_toFixed_6 in H. cbn [bind] in H.
  injection H as <-. exists time, output, sum. repeat split; assumption || reflexivity.
Qed.

Lemma zeta_never_throws fuel s e : zeta ap fuel s <> Throw e.
Proof.
  unfold zeta. generalize 1%float at 1, 0%float. generalize 1000%float.
  induction fuel as [|fuel IH]; intros n k sum; simpl; [discriminate|].
  destruct (k <? n)%float; [apply IH | discriminate].
Qed.

Lemma calculate_Throw_inv fuel (document : Document) e :
  calculate ap fuel document = Throw e ->
  e = TypeError
  /\ (document !! "time"%string = None \/ document !! "output"%string = None).
Proof.
  unfold calculate, getElementById. intros H.
  destruct (document !! "time"%string) as [time|] eqn:Ht.
  - cbn [non_null bind] in H.
    destruct (zeta ap fuel _) as [sum| |] eqn:Hz.
    + cbn [bind] in H.
      destruct (document !! "output"%string) as [output|] eqn:Ho.
      * cbn [non_null bind] in H. rewrite Number_toFixed_6 in H. discriminate.
      * cbn [non_null bind] in H. injection H as <-. auto.
    + exfalso. exact (zeta_never_throws _ _ _ Hz).
    + discriminate.
  - cbn [non_null bind] in H. injection H as <-. auto.
Qed.

End PageEffects.

(** X1. With fuel for the loop, a call throws exactly when the page lacks
    the element ["time"] or the element ["output"]; what it throws is a
    TypeError, never the RangeError of [toFixed]; and without the input
    element it throws before the loop is entered. *)
Theorem calculate_throws_iff_missing
    (ap : float -> float -> float) (fuel : nat) (document : Document) :
  (1000 <= fuel)%nat ->
  (calculate ap fuel document = Throw TypeError
   <-> document !! "time"%string = None \/ document !! "output"%string = None)
  /\ (forall e, calculate ap fuel document = Throw e -> e = TypeError)
  /\ (document !! "time"%string = None ->
      forall fuel', calculate ap fuel' document = Throw TypeError).
Proof.
  intros Hfuel. split; [split|split].
  - intros H. apply (calculate_Throw_inv ap fuel document TypeError H).
  - intros Hmiss. destruct (calculate_completes ap fuel document Hfuel) as [[d' Hn] | Ht];
      [|exact Ht].
    destruct (calculate_Normal_inv ap fuel document d' Hn) as [time [output [sum [Ht [Ho _]]]]].
    destruct Hmiss as [Hm | Hm]; congruence.
  - intros e H. apply (calculate_Throw_inv ap fuel document e H).
  - intros Hm fuel'. unfold calculate, getElementById. rewrite Hm. reflexivity.
Qed.

Lemma calculate_throws_iff_missing_witness :
  (calculate Engine.approximate_pow 1000 (delete "output"%string (page "2.5")) = Throw TypeError
   <-> delete "output"%string (page "2.5") !! "time"%string = None
       \/ delete "output"%string (page "2.5") !! "output"%string = None)
  /\ (forall e, calculate Engine.approximate_pow 1000 (delete "output"%string (page "2.5")) = Throw e
                -> e = TypeError)
  /\ (delete "output"%string (page "2.5") !! "time"%string = None ->
      forall fuel', calculate Engine.approximate_pow fuel' (delete "output"%string (page "2.5"))
                    = Throw TypeError).
Proof.
  apply (calculate_throws_iff_missing Engine.approximate_pow 1000
           (delete "output"%string (page "2.5"))).
  lia.
Defined.

(** X2. A call that returns leaves every element other than ["output"] as
    it was, keeps the [value] of the output element, and adds or removes no
    element: only the text of the output element changes. *)
Theorem calculate_frame
    (ap : float -> float -> float) (fuel : nat) (document document' : Document) :
  calculate ap fuel document = Normal document' ->
  (forall id : string, id <> "output"%string -> document' !! id = document !! id)
  /\ value <$> document' !! "output"%string = value <$> document !! "output"%string
  /\ dom document' = dom document.
Proof.
  intros H.
  destruct (calculate_Normal_inv ap fuel document document' H)
    as [time [output [sum [Ht [Ho [_ ->]]]]]].
  split; [|split].
  - intros id Hid. apply lookup_insert_ne. congruence.
  - rewrite lookup_insert_eq, Ho. reflexivity.
  - rewrite dom_insert_L.
    apply subseteq_union_1_L, singleton_subseteq_l, (elem_of_dom_2 _ _ _ Ho).
Qed.

Lemma calculate_frame_witness :
  (forall id : string, id <> "output"%string ->
     <["output"%string := {| value := EmptyString; innerText := "E(t) ≈ 18.711029" |}]>
       (page "2.5") !! id
     = page "2.5" !! id)
  /\ value <$> <["output"%string := {| value := EmptyString; innerText := "E(t) ≈ 18.711029" |}]>
                 (page "2.5") !! "output"%string
     = value <$> page "2.5" !! "output"%string
  /\ dom (<["output"%string := {| value := EmptyString; innerText := "E(t) ≈ 18.711029" |}]>
            (page "2.5"))
     = dom (page "2.5").
Proof.
  apply (calculate_frame Engine.approximate_pow 1000 (page "2.5")).
  vm_compute. reflexivity.
Defined.

(** X3. Calling again on the page a call has left changes nothing: the
    second call returns that same page. *)
Theorem calculate_idempotent
    (ap : float -> float -> float) (fuel : nat) (document document' : Document) :
  calculate ap fuel document = Normal document' ->
  calculate ap fuel document' = Normal document'.
Proof.
  intros H.
  destruct (calculate_Normal_inv ap fuel document document' H)
    as [time [output [sum [Ht [Ho [Hz ->]]]]]].
  unfold calculate, getElementById.
  rewrite lookup_insert_ne by discriminate. rewrite Ht. cbn [non_null bind].
  rewrite Hz. cbn [bind]. rewrite lookup_insert_eq. cbn [non_null bind].
  rewrite Number_toFixed_6. cbn [bind]. rewrite insert_insert_eq. reflexivity.
Qed.

Lemma calculate_idempotent_witness :
  calculate Engine.approximate_pow 1000
    (<["output"%string := {| value := EmptyString; innerText := "E(t) ≈ 18.711029" |}]>
       (page "2.5"))
  = Normal (<["output"%string := {| value := EmptyString; innerText := "E(t) ≈ 18.711029" |}]>
              (page "2.5")).
Proof.
  apply (calculate_idempotent Engine.approximate_pow 1000 (page "2.5")).
  vm_compute. reflexivity.
Defined.


(** ** Inputs that are not finite, and powers that are NaN *)

Section NotFinite.

Variable ap : float -> float -> float.

Local Open Scope float_scope.

Lemma not_finite_cases t :
  Num.is_finite t = false -> t = nan \/ t = infinity \/ t = neg_infinity.
Proof.
  unfold Num.is_finite. intros H.
  destruct (Prim2SF t) as [|[|]| |] eqn:Ht; try discriminate.
  - right. right. apply Prim2SF_inj. rewrite Ht. reflexivity.
  - right. left. apply Prim2SF_inj. rewrite Ht. reflexivity.
  - left. apply Prim2SF_inj. rewrite Ht. reflexivity.
Qed.

(** For such a [t] the first term of the series at [1 + t * 1e-6] is NaN. *)
Lemma exponent_of_not_finite t :
  Num.is_finite t = false -> Math_pow ap 1 (1 + t * 1e-6) = nan.
Proof.
  intros H. destruct (not_finite_cases t H) as [-> | [-> | ->]]; reflexivity.
Qed.

Lemma fold_add_term_nan_power s ks k :
  In k ks -> Math_pow ap k s = nan ->
  forall sum, fold_left (add_term ap s) ks sum = nan.
Proof.
  intros Hin Hk. induction ks as [|k' ks IH]; intros sum; [contradiction|].
  cbn [fold_left]. destruct Hin as [-> | Hin].
  - unfold add_term at 2. rewrite Hk, div_nan_r, add_nan_r. apply fold_add_term_nan.
  - apply IH, Hin.
Qed.

End NotFinite.

(** X4. An input that parses to NaN, to Infinity or to -Infinity shows
    ["E(t) ≈ NaN"], with every engine: the exponent is then NaN or infinite,
    and the power of 1 at such an exponent is NaN. *)
Theorem calculate_not_finite_input
    (ap : float -> float -> float) (fuel : nat) (document : Document)
    (time output : Element) :
  document !! "time"%string = Some time ->
  document !! "output"%string = Some output ->
  (1000 <= fuel)%nat ->
  Num.is_finite (Parse.parseFloat (value time)) = false ->
  zeta ap fuel (1 + Parse.parseFloat (value time) * 1e-6)%float = Normal nan
  /\ displayed (calculate ap fuel document) = Some "E(t) ≈ NaN"%string.
Proof.
  intros Ht Ho Hfuel Hnf.
  pose proof (exponent_of_not_finite ap _ Hnf) as Hpow.
  split; [apply (zeta_nan ap _ fuel Hfuel Hpow)|].
  rewrite (displayed_calculate ap fuel document time output Ht Ho Hfuel). cbv zeta.
  rewrite (series_summation_nan ap _ Hpow), mul_nan_r. reflexivity.
Qed.

Lemma calculate_not_finite_input_witness :
  zeta Engine.approximate_pow 1000 (1 + Parse.parseFloat "-Infinity" * 1e-6)%float = Normal nan
  /\ displayed (calculate Engine.approximate_pow 1000 (page "-Infinity"))
     = Some "E(t) ≈ NaN"%string.
Proof.
  apply (calculate_not_finite_input Engine.approximate_pow 1000 (page "-Infinity")
           {| value := "-Infinity"; innerText := EmptyString |}
           {| value := EmptyString; innerText := EmptyString |}).
  - vm_compute. reflexivity.
  - vm_compute. reflexivity.
  - lia.
  - vm_compute. reflexivity.
Defined.

(** ** Division by a power that is zero *)

Section ZeroPower.

Variable ap : float -> float -> float.

Local Open Scope float_scope.

Lemma SFadd_nonneg x y :
  Num.SF_nonneg x = true -> Num.SF_nonneg y = true -> Num.SF_nonneg (SF64add x y) = true.
Proof.
  intros Hx Hy.
  destruct x as [[|]|[|]| |[|] mx ex]; try discriminate;
    destruct y as [[|]|[|]| |[|] my ey]; try discriminate; try reflexivity.
  unfold SF64add, SFadd. cbn [cond_Zopp].
  change (Zpos ?a + Zpos ?b)%Z with (Zpos (a + b)).
  unfold binary_normalize, binary_round.
  destruct (shl_align _ _ _) as [mz ez]. apply binary_round_aux_nonneg. lia.
Qed.

Lemma add_nonneg x y :
  Num.is_nonneg x = true -> Num.is_nonneg y = true -> Num.is_nonneg (x + y) = true.
Proof.
  unfold Num.is_nonneg. intros Hx Hy. rewrite add_spec. apply SFadd_nonneg; assumption.
Qed.

Lemma add_infinity_r x : Num.is_nonneg x = true -> x + infinity = infinity.
Proof.
  unfold Num.is_nonneg. intros Hx. apply Prim2SF_inj. rewrite add_spec.
  change (Prim2SF infinity) with (S754_infinity false).
  destruct (Prim2SF x) as [[|]|[|]| |[|] mx ex]; try discriminate; reflexivity.
Qed.

Lemma add_infinity_l y : Num.is_nonneg y = true -> infinity + y = infinity.
Proof.
  unfold Num.is_nonneg. intros Hy. apply Prim2SF_inj. rewrite add_spec.
  change (Prim2SF infinity) with (S754_infinity false).
  destruct (Prim2SF y) as [[|]|[|]| |[|] my ey]; try discriminate; reflexivity.
Qed.

Lemma fold_add_term_infinity s ks :
  (forall k, In k ks -> Num.is_nonneg (Math_pow ap k s) = true) ->
  fold_left (add_term ap s) ks infinity = infinity.
Proof.
  induction ks as [|k ks IH]; intros Hks; [reflexivity|].
  cbn [fold_left]. unfold add_term at 2.
  rewrite add_infinity_l by (apply div_one_nonneg, Hks; left; reflexivity).
  apply IH. intros k' Hin. apply Hks. right. exact Hin.
Qed.

Lemma fold_add_term_zero_power s ks k0 :
  (forall k, In k ks -> Num.is_nonneg (Math_pow ap k s) = true) ->
  In k0 ks -> Math_pow ap k0 s = 0 ->
  forall sum, Num.is_nonneg sum = true ->
  fold_left (add_term ap s) ks sum = infinity.
Proof.
  induction ks as [|k ks IH]; intros Hks Hin Hzero sum Hsum; [contradiction|].
  assert (Hrest : forall k', In k' ks -> Num.is_nonneg (Math_pow ap k' s) = true)
    by (intros k' Hk'; apply Hks; right; exact Hk').
  cbn [fold_left]. destruct Hin as [-> | Hin].
  - unfold add_term at 2. rewrite Hzero.
    change (1 / 0) with infinity. rewrite (add_infinity_r sum Hsum).
    apply fold_add_term_infinity, Hrest.
  - apply (IH Hrest Hin Hzero). unfold add_term.
    apply add_nonneg; [exact Hsum|]. apply div_one_nonneg, Hks. left. reflexivity.
Qed.

End ZeroPower.

(** X5. Nothing guards the division: where the powers are not NaN and have
    a clear sign bit, and one of them is [+0] (the power has underflowed),
    its term is [+Infinity] and so is the sum [zeta] returns. *)
Theorem zeta_zero_power
    (ap : float -> float -> float) (s : float) (fuel : nat) (k0 : Z) :
  (1000 <= fuel)%nat ->
  (forall k, (1 <= k <= 999)%Z -> Num.is_nonneg (Math_pow ap (Num.of_Z k) s) = true) ->
  (1 <= k0 <= 999)%Z ->
  Math_pow ap (Num.of_Z k0) s = 0%float ->
  (1 / Math_pow ap (Num.of_Z k0) s)%float = infinity
  /\ zeta ap fuel s = Normal infinity.
Proof.
  intros Hfuel Hall Hk0 Hzero. split; [rewrite Hzero; reflexivity|].
  rewrite (zeta_normal ap s fuel Hfuel). apply (f_equal Normal).
  unfold series_summation.
  apply (fold_add_term_zero_power ap s indices (Num.of_Z k0)).
  - intros k Hin. destruct (indices_range k Hin) as [z [Hz ->]]. apply Hall, Hz.
  - unfold indices. apply in_map, list_elem_of_In, elem_of_seqZ. lia.
  - exact Hzero.
  - reflexivity.
Qed.

Lemma zeta_zero_power_witness :
  (1 / Math_pow Engine.approximate_pow (Num.of_Z 2) (-1e300))%float = infinity
  /\ zeta Engine.approximate_pow 1000 (-1e300) = Normal infinity.
Proof.
  apply (zeta_zero_power Engine.approximate_pow (-1e300) 1000 2).
  - lia.
  - intros k Hk.
    apply (forallb_range
             (fun z => Num.is_nonneg (Math_pow Engine.approximate_pow (Num.of_Z z) (-1e300))));
      [vm_compute; reflexivity | exact Hk].
  - lia.
  - vm_compute. reflexivity.
Defined.

(** ** What [parseFloat] skips and where it stops *)

Section Reading.

Local Open Scope string_scope.

Lemma TrimStart_blank blanks v :
  is_blank blanks = true -> Parse.TrimStart (blanks ++ v) = Parse.TrimStart v.
Proof.
  induction blanks as [|c blanks IH]; intros H; [reflexivity|].
  simpl in H. apply andb_prop in H as [Hc Hb].
  rewrite append_cons. cbn [Parse.TrimStart]. rewrite Hc. apply IH, Hb.
Qed.

Lemma parseFloat_blank blanks v :
  is_blank blanks = true -> Parse.parseFloat (blanks ++ v) = Parse.parseFloat v.
Proof.
  intros H. unfold Parse.parseFloat. rewrite (TrimStart_blank blanks v H). reflexivity.
Qed.

Lemma digit_cases c :
  Str.is_digit c = true ->
  c = "0"%char \/ c = "1"%char \/ c = "2"%char \/ c = "3"%char \/ c = "4"%char
  \/ c = "5"%char \/ c = "6"%char \/ c = "7"%char \/ c = "8"%char \/ c = "9"%char.
Proof.
  destruct c as [[|] [|] [|] [|] [|] [|] [|] [|]]; intros H; try discriminate H; tauto.
Qed.

Lemma TrimStart_digit c r :
  Str.is_digit c = true -> Parse.TrimStart (String c r) = String c r.
Proof.
  intros H.
  destruct (digit_cases c H) as [-> | [-> | [-> | [-> | [-> | [-> | [-> | [-> | [-> | ->]]]]]]]]];
    destruct r as [|c2 [|c3 r3]]; reflexivity.
Qed.

Lemma split_sign_digit c r :
  Str.is_digit c = true -> Parse.split_sign (String c r) = (false, String c r).
Proof.
  intros H.
  destruct (digit_cases c H) as [-> | [-> | [-> | [-> | [-> | [-> | [-> | [-> | [-> | ->]]]]]]]]];
    reflexivity.
Qed.

Lemma prefix_Infinity_digit c r :
  Str.is_digit c = true -> String.prefix "Infinity" (String c r) = false.
Proof.
  intros H.
  destruct (digit_cases c H) as [-> | [-> | [-> | [-> | [-> | [-> | [-> | [-> | [-> | ->]]]]]]]]];
    reflexivity.
Qed.

Lemma span_digits_stop d rest :
  all_digits d = true -> stops_number rest = true ->
  Str.span_digits (d ++ rest) = (d, rest).
Proof.
  intros Hd Hrest. induction d as [|c d IH].
  - rewrite append_nil. destruct rest as [|c r]; [reflexivity|].
    simpl in Hrest |- *. apply negb_true_iff, orb_false_elim in Hrest as [Hrest _].
    apply orb_false_elim in Hrest as [Hc _]. rewrite Hc. reflexivity.
  - simpl in Hd. apply andb_prop in Hd as [Hc Hd].
    rewrite append_cons. cbn [Str.span_digits]. rewrite Hc, (IH Hd). reflexivity.
Qed.

(** The literal read from digits followed by text that stops the number
    is the literal of the digits alone. *)
Lemma unsigned_literal_stop d rest :
  all_digits d = true -> Str.is_empty d = false -> stops_number rest = true ->
  Parse.unsigned_literal (d ++ rest) = Parse.unsigned_literal d.
Proof.
  intros Hd Hne Hrest.
  assert (Hgen : forall rest', stops_number rest' = true ->
            Parse.unsigned_literal (d ++ rest')
            = Some (Num.RoundQ (inject_Z (Str.digits_value (d ++ ""))
                                * Num.pow10 (0 - Z.of_nat (String.length ""))))).
  { intros rest' Hr. unfold Parse.unsigned_literal.
    destruct d as [|c d']; [discriminate|].
    simpl in Hd. apply andb_prop in Hd as [Hc Hd'].
    rewrite append_cons, (prefix_Infinity_digit c _ Hc), <- append_cons.
    rewrite (span_digits_stop (String c d') rest') by (simpl; rewrite ?Hc, ?Hd'; auto).
    destruct rest' as [|c' r'].
    - reflexivity.
    - simpl in Hr. apply negb_true_iff, orb_false_elim in Hr as [Hr He].
      apply orb_false_elim in Hr as [_ Hdot]. rewrite Hdot.
      cbn [Str.is_empty andb Parse.exponent_part]. rewrite He. reflexivity. }
  rewrite (Hgen rest Hrest). rewrite <- (append_empty_r d) at 2.
  rewrite (Hgen "" eq_refl). reflexivity.
Qed.

Lemma parseFloat_stop d rest :
  all_digits d = true -> Str.is_empty d = false -> stops_number rest = true ->
  Parse.parseFloat (d ++ rest) = Parse.parseFloat d.
Proof.
  intros Hd Hne Hrest. unfold Parse.parseFloat.
  destruct d as [|c d']; [discriminate|].
  pose proof Hd as Hd0. simpl in Hd0. apply andb_prop in Hd0 as [Hc _].
  rewrite append_cons, !(TrimStart_digit c _ Hc), !(split_sign_digit c _ Hc), <- append_cons.
  rewrite (unsigned_literal_stop (String c d') rest Hd Hne Hrest). reflexivity.
Qed.

End Reading.

(** X6. White space before the number in the input field does not matter:
    a field holding blanks and then some text is read, and shown, as the
    text alone. *)
Theorem calculate_skips_leading_blanks
    (ap : float -> float -> float) (fuel : nat) (d1 d2 : Document)
    (time1 time2 out1 out2 : Element) (blanks : string) :
  d1 !! "time"%string = Some time1 ->
  d2 !! "time"%string = Some time2 ->
  d1 !! "output"%string = Some out1 ->
  d2 !! "output"%string = Some out2 ->
  (1000 <= fuel)%nat ->
  is_blank blanks = true ->
  value time1 = (blanks ++ value time2)%string ->
  Parse.parseFloat (value time1) = Parse.parseFloat (value time2)
  /\ displayed (calculate ap fuel d1) = displayed (calculate ap fuel d2).
Proof.
  intros Ht1 Ht2 Ho1 Ho2 Hfuel Hb Hv.
  assert (Hp : Parse.parseFloat (value time1) = Parse.parseFloat (value time2))
    by (rewrite Hv; apply parseFloat_blank, Hb).
  split; [exact Hp|].
  rewrite (displayed_calculate ap fuel d1 time1 out1 Ht1 Ho1 Hfuel).
  rewrite (displayed_calculate ap fuel d2 time2 out2 Ht2 Ho2 Hfuel).
  cbv zeta. rewrite Hp. reflexivity.
Qed.

Lemma calculate_skips_leading_blanks_witness :
  Parse.parseFloat "   2.5" = Parse.parseFloat "2.5"
  /\ displayed (calculate Engine.approximate_pow 1000 (page "   2.5"))
     = displayed (calculate Engine.approximate_pow 1000 (page "2.5")).
Proof.
  apply (calculate_skips_leading_blanks Engine.approximate_pow 1000 (page "   2.5") (page "2.5")
           {| value := "   2.5"; innerText := EmptyString |}
           {| value := "2.5"; innerText := EmptyString |}
           {| value := EmptyString; innerText := EmptyString |}
           {| value := EmptyString; innerText := EmptyString |} "   ").
  - vm_compute. reflexivity.
  - vm_compute. reflexivity.
  - vm_compute. reflexivity.
  - vm_compute. reflexivity.
  - lia.
  - reflexivity.
  - reflexivity.
Defined.

(** X7. Text after a whole number is ignored: a field holding digits and
    then text that does not continue the number (no digit, point or
    exponent letter next) is read, and shown, as the digits alone. *)
Theorem calculate_stops_at_text
    (ap : float -> float -> float) (fuel : nat) (d1 d2 : Document)
    (time1 time2 out1 out2 : Element) (rest : string) :
  d1 !! "time"%string = Some time1 ->
  d2 !! "time"%string = Some time2 ->
  d1 !! "output"%string = Some out1 ->
  d2 !! "output"%string = Some out2 ->
  (1000 <= fuel)%nat ->
  all_digits (value time2) = true ->
  Str.is_empty (value time2) = false ->
  stops_number rest = true ->
  value time1 = (value time2 ++ rest)%string ->
  Parse.parseFloat (value time1) = Parse.parseFloat (value time2)
  /\ displayed (calculate ap fuel d1) = displayed (calculate ap fuel d2).
Proof.
  intros Ht1 Ht2 Ho1 Ho2 Hfuel Hd Hne Hrest Hv.
  assert (Hp : Parse.parseFloat (value time1) = Parse.parseFloat (value time2))
    by (rewrite Hv; apply parseFloat_stop; assumption).
  split; [exact Hp|].
  rewrite (displayed_calculate ap fuel d1 time1 out1 Ht1 Ho1 Hfuel).
  rewrite (displayed_calculate ap fuel d2 time2 out2 Ht2 Ho2 Hfuel).
  cbv zeta. rewrite Hp. reflexivity.
Qed.

Lemma calculate_stops_at_text_witness :
  Parse.parseFloat "12 seconds" = Parse.parseFloat "12"
  /\ displayed (calculate Engine.approximate_pow 1000 (page "12 seconds"))
     = displayed (calculate Engine.approximate_pow 1000 (page "12")).
Proof.
  apply (calculate_stops_at_text Engine.approximate_pow 1000 (page "12 seconds") (page "12")
           {| value := "12 seconds"; innerText := EmptyString |}
           {| value := "12"; innerText := EmptyString |}
           {| value := EmptyString; innerText := EmptyString |}
           {| value := EmptyString; innerText := EmptyString |} " seconds").
  - vm_compute. reflexivity.
  - vm_compute. reflexivity.
  - vm_compute. reflexivity.
  - vm_compute. reflexivity.
  - lia.
  - reflexivity.
  - reflexivity.
  - reflexivity.
  - reflexivity.
Defined.

(** ** The sign of the product *)

Section Sign.

Lemma binary_round_aux_nonzero sx mx ex lx :
  0 < mx -> -1073 <= Zdigits2 mx + ex ->
  (exists m e, binary_round_aux prec emax sx mx ex lx = S754_finite sx m e)
  \/ binary_round_aux prec emax sx mx ex lx = S754_infinity sx.
Proof.
  intros Hmx HD. unfold binary_round_aux.
  destruct (shr_fexp_spec mx ex lx ltac:(lia)) as [Hm1 He1].
  destruct (shr_fexp prec emax mx ex lx) as [mrs1 e1]. cbn [fst snd] in Hm1, He1.
  rewrite fexp_eq in Hm1, He1. rewrite (Zdigits2_pos_log2 mx Hmx) in *.
  pose proof (Z.log2_nonneg mx) as Hlogx.
  assert (H1 : 0 < shr_m mrs1) by (rewrite Hm1; apply div_pow2_pos; lia).
  set (m2 := round_nearest_even (shr_m mrs1) (loc_of_shr_record mrs1)).
  assert (Hm2 : 0 < m2).
  { pose proof (round_nearest_even_bounds (shr_m mrs1) (loc_of_shr_record mrs1)).
    unfold m2. lia. }
  destruct (shr_fexp_spec m2 e1 loc_Exact ltac:(lia)) as [Hm3 He3].
  destruct (shr_fexp prec emax m2 e1 loc_Exact) as [mrs3 e3]. cbn [fst snd] in Hm3, He3.
  rewrite fexp_eq in Hm3, He3. rewrite (Zdigits2_pos_log2 m2 Hm2) in *.
  pose proof (Z.log2_nonneg m2) as Hlog.
  assert (H3 : 0 < shr_m mrs3) by (rewrite Hm3; apply div_pow2_pos; lia).
  destruct (shr_m mrs3) as [|m3|m3]; try lia.
  destruct (e3 <=? emax - prec); [left; eauto | right; reflexivity].
Qed.

Lemma valid_digits_low m e s :
  valid_binary (S754_finite s m e) = true -> -1073 <= Zdigits2 (Zpos m) + e.
Proof.
  unfold SpecFloat.valid_binary, bounded, canonical_mantissa. intros H.
  apply andb_prop in H as [H _]. apply Z.eqb_eq in H.
  rewrite fexp_eq in H. rewrite Zdigits2_log2.
  pose proof (Z.log2_nonneg (Zpos m)). unfold Zdigits2 in H.
  change (Zpos (digits2_pos m)) with (Zdigits2 (Zpos m)) in H.
  rewrite Zdigits2_log2 in H. lia.
Qed.

(** A finite non-zero value times a value that is at least 1 is neither
    zero nor NaN, and has the sign of the first factor. *)
Lemma SFmul_ge1_sign st mt et z :
  valid_binary (S754_finite st mt et) = true ->
  valid_binary z = true -> Num.SF_ge1 z = true ->
  (exists m e, SF64mul (S754_finite st mt et) z = S754_finite st m e)
  \/ SF64mul (S754_finite st mt et) z = S754_infinity st.
Proof.
  intros Hvt Hvz Hz.
  destruct z as [[|]|[|]| |[|] mz ez]; try discriminate.
  - right. unfold SF64mul, SFmul. rewrite xorb_false_r. reflexivity.
  - simpl in Hz. apply Z.leb_le in Hz.
    unfold SF64mul, SFmul. rewrite xorb_false_r.
    apply binary_round_aux_nonzero; [lia|].
    pose proof (valid_digits_low mt et st Hvt) as Ht.
    pose proof (valid_ge1_digits mz ez Hvz Hz) as Hdz.
    rewrite !Zdigits2_log2 in *. rewrite Pos2Z.inj_mul.
    pose proof (Z.log2_mul_below (Zpos mt) (Zpos mz) ltac:(lia) ltac:(lia)).
    change (IntDef.Z.add et ez) with (et + ez). clear Hvt Hvz. lia.
Qed.

Lemma leb_SF_ge1 x :
  SFleb (Prim2SF 1) x = true -> Num.SF_ge1 x = true.
Proof.
  change (Prim2SF 1) with (S754_finite false 4503599627370496 (-52)).
  unfold SFleb, SFcompare, Num.SF_ge1.
  destruct x as [[|]|[|]| |[|] mx ex]; try discriminate; try reflexivity.
  destruct (Z.compare_spec (-52) ex) as [Heq | Hlt | Hgt]; intros H;
    try discriminate H; apply Z.leb_le; lia.
Qed.

Lemma ltb_zero_sign t st mt et :
  Prim2SF t = S754_finite st mt et -> (t <? 0)%float = st.
Proof.
  intros Ht. rewrite ltb_spec, Ht. change (Prim2SF 0) with (S754_zero false).
  destruct st; reflexivity.
Qed.

Lemma Qle_bool_0_finite st m e :
  Qle_bool 0 (Num.SF2Q (S754_finite st m e)) = negb st.
Proof.
  unfold Num.SF2Q.
  pose proof (Qpower_0_lt (2 # 1) e ltac:(reflexivity)) as Hp.
  revert Hp. generalize ((2 # 1) ^ e)%Q. intros [pn pd] Hp.
  unfold Qlt in Hp. cbn [Qnum Qden] in Hp.
  unfold Qle_bool, Qmult, inject_Z. cbn [Qnum Qden].
  destruct st; cbn [cond_Zopp negb].
  - apply Z.leb_gt. nia.
  - apply Z.leb_le. nia.
Qed.

End Sign.

(** ** The first character of the formatted number *)

Section Minus.

Local Open Scope string_scope.
Local Open Scope Z_scope.

Lemma is_empty_app s r : Str.is_empty (s ++ r) = Str.is_empty s && Str.is_empty r.
Proof. destruct s; reflexivity. Qed.

Lemma starts_with_minus_app s r :
  starts_with_minus (s ++ r)
  = if Str.is_empty s then starts_with_minus r else starts_with_minus s.
Proof. destruct s; reflexivity. Qed.

Lemma starts_with_minus_digits a : all_digits a = true -> starts_with_minus a = false.
Proof.
  destruct a as [|c a]; [reflexivity|]. simpl. intros H.
  apply andb_prop in H as [Hc _]. apply Ascii.eqb_neq. intros ->. discriminate.
Qed.

Lemma starts_with_minus_zeros n : starts_with_minus (Str.zeros n) = false.
Proof. destruct n; reflexivity. Qed.

Lemma toString_positive_no_minus x : starts_with_minus (Fmt.toString_positive x) = false.
Proof.
  unfold Fmt.toString_positive.
  destruct (Fmt.shortest _ _ _ _ _) as [[[n k] s]|]; [|reflexivity].
  pose proof (all_digits_decimal s) as Hd.
  pose proof (starts_with_minus_digits _ Hd) as Hm.
  pose proof (starts_with_minus_digits _ (all_digits_take (Z.to_nat n) _ Hd)) as Hmn.
  pose proof (starts_with_minus_digits _ (all_digits_take 1 _ Hd)) as Hm1.
  destruct ((-5 <=? n) && (n <=? 21)).
  - destruct (k <=? n); [|destruct (0 <? n)].
    + rewrite starts_with_minus_app, Hm, starts_with_minus_zeros.
      destruct (Str.is_empty _); reflexivity.
    + rewrite starts_with_minus_app, Hmn. destruct (Str.is_empty _); reflexivity.
    + reflexivity.
  - set (mantissa := if k =? 1 then _ else _).
    assert (Hmant : starts_with_minus mantissa = false).
    { unfold mantissa. destruct (k =? 1); [exact Hm|].
      rewrite starts_with_minus_app, Hm1. destruct (Str.is_empty _); reflexivity. }
    rewrite starts_with_minus_app, Hmant. destruct (Str.is_empty _); reflexivity.
Qed.

Lemma fixed_digits_no_minus x : starts_with_minus (Fmt.fixed_digits x 6) = false.
Proof.
  destruct (fixed_digits_fraction x 6 ltac:(lia)) as [a [b [-> [Ha [Hne _]]]]].
  rewrite starts_with_minus_app, Hne. apply starts_with_minus_digits, Ha.
Qed.

(** The formatted text of a Number that is neither zero nor NaN begins
    with a minus sign exactly when its sign bit is set. *)
Lemma fixed_string_minus E st :
  ((exists m e, Prim2SF E = S754_finite st m e) \/ Prim2SF E = S754_infinity st) ->
  starts_with_minus (Fmt.fixed_string E 6) = st.
Proof.
  intros [[m [e HE]] | HE]; unfold Fmt.fixed_string, Num.is_finite, Num.F2Q; rewrite HE.
  - cbn [negb]. rewrite Qle_bool_0_finite.
    set (digits := if Qle_bool _ _ then _ else _).
    assert (Hdigits : starts_with_minus digits = false).
    { unfold digits. destruct (Qle_bool _ _); [|apply fixed_digits_no_minus].
      unfold Fmt.Number_toString. rewrite abs_spec, HE. cbn [SFabs].
      apply toString_positive_no_minus. }
    destruct st; cbn [negb]; [reflexivity|]. rewrite append_nil. exact Hdigits.
  - cbn [negb]. unfold Fmt.Number_toString. rewrite HE. destruct st; reflexivity.
Qed.

End Minus.


(** ** The sign shown, and the input zero *)

Section SignShown.

Variable ap : float -> float -> float.

Local Open Scope float_scope.

Lemma series_summation_SF_ge1 s :
  Math_pow ap 1 s = 1 ->
  (forall k, (2 <= k <= 999)%Z -> Num.is_nonneg (Math_pow ap (Num.of_Z k) s) = true) ->
  Num.SF_ge1 (Prim2SF (series_summation ap s)) = true.
Proof.
  intros H1 Hk. apply leb_SF_ge1. rewrite <- leb_spec.
  apply series_summation_ge1; assumption.
Qed.

(** The product of a finite non-zero [t] and a sum that is at least 1. *)
Lemma mul_ge1_sign t z :
  is_finite_nonzero t = true -> Num.SF_ge1 (Prim2SF z) = true ->
  (exists m e, Prim2SF (t * z) = S754_finite (t <? 0) m e)
  \/ Prim2SF (t * z) = S754_infinity (t <? 0).
Proof.
  unfold is_finite_nonzero. intros Ht Hz.
  destruct (Prim2SF t) as [| | |st mt et] eqn:HPt; try discriminate.
  rewrite (ltb_zero_sign t st mt et HPt), mul_spec, HPt.
  apply SFmul_ge1_sign; [rewrite <- HPt; apply Prim2SF_valid | apply Prim2SF_valid | exact Hz].
Qed.

Lemma zero_value_cases t : is_zero_value t = true -> t = 0 \/ t = neg_zero.
Proof.
  unfold is_zero_value. intros H.
  destruct (Prim2SF t) as [[|]| | |] eqn:Ht; try discriminate.
  - right. apply Prim2SF_inj. rewrite Ht. reflexivity.
  - left. apply Prim2SF_inj. rewrite Ht. reflexivity.
Qed.

Lemma mul_zero_value t z :
  is_zero_value t = true ->
  if Num.is_finite z then is_zero_value (t * z) = true else t * z = nan.
Proof.
  unfold is_zero_value, Num.is_finite. intros Ht.
  destruct (Prim2SF t) as [st| | |] eqn:HPt; try discriminate.
  destruct (Prim2SF z) as [sz|sz| |sz mz ez] eqn:HPz.
  - rewrite mul_spec, HPt, HPz. reflexivity.
  - apply Prim2SF_inj. rewrite mul_spec, HPt, HPz. reflexivity.
  - apply Prim2SF_inj. rewrite mul_spec, HPt, HPz. reflexivity.
  - rewrite mul_spec, HPt, HPz. reflexivity.
Qed.

End SignShown.

(** X8. The sign shown is the sign of the input. For a finite non-zero
    input, with an engine whose powers at this exponent are [1^s = 1] and
    otherwise not NaN with a clear sign bit, [E] is neither zero nor NaN
    and the formatted number begins with a minus sign exactly when the
    input is negative, also when its six decimals are all zero. *)
Theorem calculate_shows_sign
    (ap : float -> float -> float) (fuel : nat) (document : Document)
    (time output : Element) :
  document !! "time"%string = Some time ->
  document !! "output"%string = Some output ->
  (1000 <= fuel)%nat ->
  let t := Parse.parseFloat (value time) in
  let s := (1 + t * 1e-6)%float in
  is_finite_nonzero t = true ->
  Math_pow ap 1 s = 1%float ->
  (forall k, (2 <= k <= 999)%Z -> Num.is_nonneg (Math_pow ap (Num.of_Z k) s) = true) ->
  exists (E : float) (fixed : string),
    E = (t * series_summation ap s)%float
    /\ (is_finite_nonzero E = true \/ E = infinity \/ E = neg_infinity)
    /\ Fmt.Number_toFixed E 6 = Normal fixed
    /\ displayed (calculate ap fuel document) = Some ("E(t) ≈ " ++ fixed)%string
    /\ starts_with_minus fixed = (t <? 0)%float.
Proof.
  intros Ht Ho Hfuel t s Hnz H1 Hk.
  pose proof (mul_ge1_sign t _ Hnz (series_summation_SF_ge1 ap s H1 Hk)) as HE.
  exists (t * series_summation ap s)%float, (Fmt.fixed_string (t * series_summation ap s)%float 6).
  split; [reflexivity|]. split.
  - destruct HE as [[m [e HE]] | HE].
    + left. unfold is_finite_nonzero. rewrite HE. reflexivity.
    + right. destruct (t <? 0)%float; [right | left]; apply Prim2SF_inj; rewrite HE; reflexivity.
  - split; [apply Number_toFixed_6|].
    split; [apply (displayed_calculate ap fuel document time output Ht Ho Hfuel)|].
    apply fixed_string_minus, HE.
Qed.

Lemma calculate_shows_sign_witness :
  exists (E : float) (fixed : string),
    E = (Parse.parseFloat "-0.0000000001"
         * series_summation Engine.approximate_pow
             (1 + Parse.parseFloat "-0.0000000001" * 1e-6))%float
    /\ (is_finite_nonzero E = true \/ E = infinity \/ E = neg_infinity)
    /\ Fmt.Number_toFixed E 6 = Normal fixed
    /\ displayed (calculate Engine.approximate_pow 1000 (page "-0.0000000001"))
       = Some ("E(t) ≈ " ++ fixed)%string
    /\ starts_with_minus fixed = (Parse.parseFloat "-0.0000000001" <? 0)%float.
Proof.
  apply (calculate_shows_sign Engine.approximate_pow 1000 (page "-0.0000000001")
           {| value := "-0.0000000001"; innerText := EmptyString |}
           {| value := EmptyString; innerText := EmptyString |}).
  - vm_compute. reflexivity.
  - vm_compute. reflexivity.
  - lia.
  - vm_compute. reflexivity.
  - vm_compute. reflexivity.
  - intros k Hk.
    apply (forallb_range
             (fun z => Num.is_nonneg
                         (Math_pow Engine.approximate_pow (Num.of_Z z)
                            (1 + Parse.parseFloat "-0.0000000001" * 1e-6))));
      [vm_compute; reflexivity | lia].
Defined.

(** X9. An input that parses to [+0] or to [-0] shows ["0.000000"], with
    no sign, whenever the series at exponent 1 is finite, and NaN when it
    is not: [0 * Infinity] is NaN. *)
Theorem calculate_zero_input
    (ap : float -> float -> float) (fuel : nat) (document : Document)
    (time output : Element) :
  document !! "time"%string = Some time ->
  document !! "output"%string = Some output ->
  (1000 <= fuel)%nat ->
  is_zero_value (Parse.parseFloat (value time)) = true ->
  (1 + Parse.parseFloat (value time) * 1e-6)%float = 1%float
  /\ displayed (calculate ap fuel document)
     = Some (if Num.is_finite (series_summation ap 1)
             then "E(t) ≈ 0.000000" else "E(t) ≈ NaN")%string.
Proof.
  intros Ht Ho Hfuel Hzero.
  assert (Hs : (1 + Parse.parseFloat (value time) * 1e-6)%float = 1%float)
    by (destruct (zero_value_cases _ Hzero) as [-> | ->]; reflexivity).
  split; [exact Hs|].
  rewrite (displayed_calculate ap fuel document time output Ht Ho Hfuel). cbv zeta.
  rewrite Hs. pose proof (mul_zero_value _ (series_summation ap 1) Hzero) as HE.
  destruct (Num.is_finite (series_summation ap 1)).
  - destruct (zero_value_cases _ HE) as [-> | ->]; reflexivity.
  - rewrite HE. reflexivity.
Qed.

Lemma calculate_zero_input_witness :
  (1 + Parse.parseFloat "-0" * 1e-6)%float = 1%float
  /\ displayed (calculate Engine.approximate_pow 1000 (page "-0"))
     = Some (if Num.is_finite (series_summation Engine.approximate_pow 1)
             then "E(t) ≈ 0.000000" else "E(t) ≈ NaN")%string.
Proof.
  apply (calculate_zero_input Engine.approximate_pow 1000 (page "-0")
           {| value := "-0"; innerText := EmptyString |}
           {| value := EmptyString; innerText := EmptyString |}).
  - vm_compute. reflexivity.
  - vm_compute. reflexivity.
  - lia.
  - vm_compute. reflexivity.
Defined.

(** ** The value of the digits [toFixed] prints *)

Section FixedValue.

Local Open Scope string_scope.
Local Open Scope Z_scope.

Lemma digits_value_from_uint_acc d :
  forall p, Str.digits_value_from (Zpos p) (NilEmpty.string_of_uint d)
            = Zpos (Pos.of_uint_acc d p).
Proof.
  induction d as [|d IH|d IH|d IH|d IH|d IH|d IH|d IH|d IH|d IH|d IH]; intros p;
    [reflexivity|..];
    cbn [NilEmpty.string_of_uint Str.digits_value_from Pos.of_uint_acc];
    rewrite <- IH; f_equal; unfold Str.digit_value; cbn; lia.
Qed.

Lemma digits_value_uint d :
  Str.digits_value (NilEmpty.string_of_uint d) = Z.of_N (Pos.of_uint d).
Proof.
  unfold Str.digits_value.
  induction d as [|d IH|d IH|d IH|d IH|d IH|d IH|d IH|d IH|d IH|d IH];
    [reflexivity | exact IH |..];
    cbn [NilEmpty.string_of_uint Str.digits_value_from Pos.of_uint N.of_uint Z.of_N];
    rewrite <- digits_value_from_uint_acc; reflexivity.
Qed.

(** Reading the decimal representation of a non-negative integer gives
    the integer back. *)
Lemma digits_value_decimal n : 0 <= n -> Str.digits_value (Str.decimal n) = n.
Proof.
  intros Hn. unfold Str.decimal, NilZero.string_of_uint.
  pose proof (DecimalN.Unsigned.of_to (Z.to_N n)) as Hof. unfold N.of_uint in Hof.
  destruct (N.to_uint (Z.to_N n)) eqn:Hd;
    try (rewrite <- Hd, digits_value_uint, Hd, Hof; lia).
  simpl in Hof. change (Str.digits_value "0") with 0. lia.
Qed.

Lemma digits_value_zeros k m :
  Str.digits_value (Str.zeros k ++ m) = Str.digits_value m.
Proof.
  unfold Str.digits_value. induction k as [|k IH]; [reflexivity|].
  cbn [Str.zeros]. rewrite append_cons. cbn [Str.digits_value_from]. exact IH.
Qed.

Lemma take_drop n s : Str.take n s ++ Str.drop n s = s.
Proof.
  revert s. induction n as [|n IH]; intros [|c s]; try reflexivity.
  cbn [Str.take Str.drop]. rewrite append_cons, IH. reflexivity.
Qed.

Lemma fixed_digits_value x f :
  0 < f -> (0 <= x)%Q -> exists a b,
    Fmt.fixed_digits x f = a ++ "." ++ b
    /\ all_digits a = true /\ Str.is_empty a = false
    /\ all_digits b = true /\ String.length b = Z.to_nat f
    /\ Str.digits_value (a ++ b) = Qfloor (x * Num.pow10 f + (1 # 2)).
Proof.
  intros Hf Hx.
  assert (Hn : 0 <= Qfloor (x * Num.pow10 f + (1 # 2))).
  { change 0 with (Qfloor 0). apply Qfloor_resp_le.
    apply Qle_trans with (x * Num.pow10 f)%Q.
    - apply Qmult_le_0_compat; [exact Hx|]. apply Qpower_0_le. discriminate.
    - rewrite <- (Qplus_0_r (x * Num.pow10 f)) at 1.
      apply Qplus_le_r. discriminate. }
  unfold Fmt.fixed_digits.
  set (n := Qfloor _) in *.
  set (m := if n =? 0 then "0" else Str.decimal n).
  assert (Hm : all_digits m = true).
  { unfold m. destruct (n =? 0); [reflexivity | apply all_digits_decimal]. }
  assert (Hmv : Str.digits_value m = n).
  { unfold m. destruct (n =? 0) eqn:Hz; [apply Z.eqb_eq in Hz; rewrite Hz; reflexivity|].
    apply digits_value_decimal, Hn. }
  replace (f =? 0) with false by (symmetry; apply Z.eqb_neq; lia).
  set (k := Z.of_nat (String.length m)).
  set (m' := if k <=? f then Str.zeros (Z.to_nat (f + 1 - k)) ++ m else m).
  set (k' := if k <=? f then f + 1 else k).
  assert (Hm' : all_digits m' = true).
  { unfold m'. destruct (k <=? f); [|exact Hm].
    rewrite all_digits_app, all_digits_zeros, Hm. reflexivity. }
  assert (Hm'v : Str.digits_value m' = n).
  { unfold m'. destruct (k <=? f); [rewrite digits_value_zeros|]; exact Hmv. }
  assert (Hk' : Z.of_nat (String.length m') = k' /\ f < k').
  { unfold m', k'. destruct (k <=? f) eqn:Hkf.
    - rewrite length_app, length_zeros. apply Z.leb_le in Hkf. unfold k in *. lia.
    - apply Z.leb_gt in Hkf. unfold k in *. lia. }
  destruct Hk' as [Hlen Hlt].
  exists (Str.take (Z.to_nat (k' - f)) m'), (Str.drop (Z.to_nat (k' - f)) m').
  split; [reflexivity|].
  split; [apply all_digits_take, Hm'|].
  split.
  { destruct m' as [|c r]; [simpl in Hlen; lia|].
    destruct (Z.to_nat (k' - f)) eqn:Hnat; [lia | reflexivity]. }
  split; [apply all_digits_drop, Hm'|].
  split; [rewrite length_drop; lia|].
  rewrite take_drop. exact Hm'v.
Qed.

(** The digits of a value below [10^21], read as a count of millionths,
    are the integer nearest to its magnitude times [10^6]. *)
Lemma fixed_string_value E :
  Num.is_finite E = true -> (Qabs (Num.F2Q E) < Num.pow10 21)%Q ->
  exists a b,
    Fmt.fixed_string E 6
    = (if Qle_bool 0 (Num.F2Q E) then "" else "-") ++ a ++ "." ++ b
    /\ all_digits a = true /\ Str.is_empty a = false
    /\ all_digits b = true /\ String.length b = 6%nat
    /\ (inject_Z (Str.digits_value (a ++ b)) - (1 # 2)
        <= Qabs (Num.F2Q E) * Num.pow10 6)%Q
    /\ (Qabs (Num.F2Q E) * Num.pow10 6
        < inject_Z (Str.digits_value (a ++ b)) + (1 # 2))%Q.
Proof.
  intros Hfin Hlt. unfold Fmt.fixed_string. rewrite Hfin. cbn [negb].
  destruct (Qle_bool (Num.pow10 21) (Qabs (Num.F2Q E))) eqn:Hbig.
  { apply Qle_bool_iff in Hbig. exfalso. exact (Qlt_not_le _ _ Hlt Hbig). }
  destruct (fixed_digits_value (Qabs (Num.F2Q E)) 6 ltac:(lia) (Qabs_nonneg _))
    as [a [b [-> [Ha [Hne [Hb [Hlen Hval]]]]]]].
  exists a, b. split; [reflexivity|].
  repeat (split; [assumption|]).
  rewrite Hval. set (y := (Qabs (Num.F2Q E) * Num.pow10 6)%Q).
  pose proof (Qfloor_le (y + (1 # 2))) as Hlo.
  pose proof (Qlt_floor (y + (1 # 2))) as Hhi.
  rewrite inject_Z_plus in Hhi. change (inject_Z 1) with 1%Q in Hhi.
  split; lra.
Qed.

End FixedValue.

(** X10. The number shown is [E] to the nearest millionth. When [E] is
    finite and below [10^21] in absolute value, the digits written, read
    without the point as a whole number [N], satisfy
    [N - 1/2 <= |E| * 10^6 < N + 1/2], and a minus sign is written exactly
    when [E] is below zero. *)
Theorem calculate_shows_nearest_millionth
    (ap : float -> float -> float) (fuel : nat) (document : Document)
    (time output : Element) :
  document !! "time"%string = Some time ->
  document !! "output"%string = Some output ->
  (1000 <= fuel)%nat ->
  let t := Parse.parseFloat (value time) in
  let E := (t * series_summation ap (1 + t * 1e-6))%float in
  Num.is_finite E = true ->
  (Qabs (Num.F2Q E) < Num.pow10 21)%Q ->
  exists a b : string,
    displayed (calculate ap fuel document)
    = Some ("E(t) ≈ " ++ (if Qle_bool 0 (Num.F2Q E) then "" else "-") ++ a ++ "." ++ b)%string
    /\ all_digits a = true /\ Str.is_empty a = false
    /\ all_digits b = true /\ String.length b = 6%nat
    /\ (inject_Z (Str.digits_value (a ++ b)) - (1 # 2)
        <= Qabs (Num.F2Q E) * Num.pow10 6)%Q
    /\ (Qabs (Num.F2Q E) * Num.pow10 6
        < inject_Z (Str.digits_value (a ++ b)) + (1 # 2))%Q.
Proof.
  intros Ht Ho Hfuel t E Hfin Hlt.
  destruct (fixed_string_value E Hfin Hlt) as [a [b [Hshape Hrest]]].
  exists a, b. split; [|exact Hrest].
  rewrite (displayed_calculate ap fuel document time output Ht Ho Hfuel). cbv zeta.
  fold t. fold E. rewrite Hshape. reflexivity.
Qed.

Lemma calculate_shows_nearest_millionth_witness :
  exists a b : string,
    displayed (calculate Engine.approximate_pow 1000 (page "-5"))
    = Some ("E(t) ≈ "
            ++ (if Qle_bool 0
                     (Num.F2Q (Parse.parseFloat "-5"
                               * series_summation Engine.approximate_pow
                                   (1 + Parse.parseFloat "-5" * 1e-6))%float)
                then "" else "-") ++ a ++ "." ++ b)%string
    /\ all_digits a = true /\ Str.is_empty a = false
    /\ all_digits b = true /\ String.length b = 6%nat
    /\ (inject_Z (Str.digits_value (a ++ b)) - (1 # 2)
        <= Qabs (Num.F2Q (Parse.parseFloat "-5"
                          * series_summation Engine.approximate_pow
                              (1 + Parse.parseFloat "-5" * 1e-6))%float)
           * Num.pow10 6)%Q
    /\ (Qabs (Num.F2Q (Parse.parseFloat "-5"
                       * series_summation Engine.approximate_pow
                           (1 + Parse.parseFloat "-5" * 1e-6))%float)
        * Num.pow10 6
        < inject_Z (Str.digits_value (a ++ b)) + (1 # 2))%Q.
Proof.
  apply (calculate_shows_nearest_millionth Engine.approximate_pow 1000 (page "-5")
           {| value := "-5"; innerText := EmptyString |}
           {| value := EmptyString; innerText := EmptyString |}).
  - vm_compute. reflexivity.
  - vm_compute. reflexivity.
  - lia.
  - vm_compute. reflexivity.
  - vm_compute. reflexivity.
Defined.

(** ** The magnitude of the product *)

Section Magnitude.

(** Rounding a value that is at least a representable [mt * 2^et] gives
    at least that value: a larger exponent, or the same exponent and a
    mantissa that is no smaller. *)
Lemma binary_round_aux_lower sx mx ex lx mt et :
  0 < mx ->
  fexp prec emax (Zdigits2 (Zpos mt) + et) = et ->
  Zdigits2 (Zpos mt) + et <= Zdigits2 mx + ex ->
  (ex <= et -> Zpos mt * 2 ^ (et - ex) <= mx) ->
  binary_round_aux prec emax sx mx ex lx = S754_infinity sx
  \/ exists m e,
      binary_round_aux prec emax sx mx ex lx = S754_finite sx m e
      /\ (et < e \/ (e = et /\ Zpos mt <= Zpos m)).
Proof.
  intros Hmx Hcan HD Hval. unfold binary_round_aux.
  destruct (shr_fexp_spec mx ex lx ltac:(lia)) as [Hm1 He1].
  destruct (shr_fexp prec emax mx ex lx) as [mrs1 e1]. cbn [fst snd] in Hm1, He1.
  rewrite fexp_eq in Hm1, He1, Hcan.
  rewrite (Zdigits2_pos_log2 mx Hmx), Zdigits2_log2 in *.
  pose proof (Z.log2_nonneg mx) as Hlogx.
  pose proof (Z.log2_nonneg (Zpos mt)) as Hlogt.
  assert (H1 : 0 < shr_m mrs1) by (rewrite Hm1; apply div_pow2_pos; lia).
  set (m2 := round_nearest_even (shr_m mrs1) (loc_of_shr_record mrs1)).
  assert (Hm2 : shr_m mrs1 <= m2).
  { pose proof (round_nearest_even_bounds (shr_m mrs1) (loc_of_shr_record mrs1)).
    unfold m2. lia. }
  destruct (shr_fexp_spec m2 e1 loc_Exact ltac:(lia)) as [Hm3 He3].
  destruct (shr_fexp prec emax m2 e1 loc_Exact) as [mrs3 e3]. cbn [fst snd] in Hm3, He3.
  rewrite fexp_eq in Hm3, He3. rewrite (Zdigits2_pos_log2 m2 ltac:(lia)) in *.
  pose proof (Z.log2_nonneg m2) as Hlog.
  assert (H3 : 0 < shr_m mrs3) by (rewrite Hm3; apply div_pow2_pos; lia).
  destruct (shr_m mrs3) as [|m3|m3] eqn:Hs3; try lia.
  destruct (e3 <=? emax - prec); [right | left; reflexivity].
  exists m3, e3. split; [reflexivity|].
  destruct (Z.eq_dec e3 et) as [Heq | Hne]; [right | left; lia].
  split; [exact Heq|].
  assert (Hn2 : Z.max 0 (Z.max (Z.log2 m2 + 1 + e1 - 53) (-1074) - e1) = 0) by lia.
  rewrite Hn2, Z.pow_0_r, Z.div_1_r in Hm3.
  assert (Hex : ex <= et) by lia.
  specialize (Hval Hex).
  assert (Hn1 : Z.max 0 (Z.max (Z.log2 mx + 1 + ex - 53) (-1074) - ex) = et - ex) by lia.
  rewrite Hn1 in Hm1.
  assert (Zpos mt <= shr_m mrs1).
  { rewrite Hm1. apply Z.div_le_lower_bound; [apply Z.pow_pos_nonneg; lia|].
    rewrite Z.mul_comm. exact Hval. }
  lia.
Qed.

Lemma valid_canonical s m e :
  valid_binary (S754_finite s m e) = true ->
  fexp prec emax (Zdigits2 (Zpos m) + e) = e.
Proof.
  unfold SpecFloat.valid_binary, bounded, canonical_mantissa. intros H.
  apply andb_prop in H as [H _]. apply Z.eqb_eq in H. exact H.
Qed.

Lemma SFmul_ge1_magnitude st mt et z :
  valid_binary (S754_finite st mt et) = true ->
  valid_binary z = true -> Num.SF_ge1 z = true ->
  SFleb (S754_finite false mt et) (SFabs (SF64mul (S754_finite st mt et) z)) = true.
Proof.
  intros Hvt Hvz Hz.
  destruct z as [[|]|[|]| |[|] mz ez]; try discriminate.
  - unfold SF64mul, SFmul. reflexivity.
  - simpl in Hz. apply Z.leb_le in Hz.
    pose proof (valid_canonical st mt et Hvt) as Hcan.
    pose proof (valid_ge1_digits mz ez Hvz Hz) as Hdz.
    assert (Hmz : 2 ^ 52 <= Zpos mz).
    { rewrite Zdigits2_log2 in Hdz.
      pose proof (Z.log2_spec (Zpos mz) ltac:(lia)) as [Hlo _].
      replace (Z.log2 (Zpos mz)) with 52 in Hlo by (clear - Hdz; lia). exact Hlo. }
    unfold SF64mul, SFmul.
    destruct (binary_round_aux_lower (xorb st false) (Zpos (mt * mz)) (et + ez) loc_Exact mt et)
      as [Hinf | [m [e [Hfin Hord]]]].
    + lia.
    + exact Hcan.
    + rewrite !Zdigits2_log2 in *. rewrite Pos2Z.inj_mul.
      pose proof (Z.log2_mul_below (Zpos mt) (Zpos mz) ltac:(lia) ltac:(lia)).
      clear - H Hdz Hz. lia.
    + intros Hle. rewrite Pos2Z.inj_mul. apply Z.mul_le_mono_nonneg_l; [lia|].
      apply Z.le_trans with (2 ^ 52); [|exact Hmz].
      apply Z.pow_le_mono_r; lia.
    + change (IntDef.Z.add et ez) with (et + ez). rewrite Hinf. reflexivity.
    + change (IntDef.Z.add et ez) with (et + ez). rewrite Hfin. cbn [SFabs].
      unfold SFleb, SFcompare.
      destruct Hord as [Hlt | [-> Hm]].
      * apply Z.compare_lt_iff in Hlt. rewrite Hlt. reflexivity.
      * rewrite Z.compare_refl.
        change (Pos.compare_cont Eq mt m) with (Pos.compare mt m).
        destruct (Pos.compare_spec mt m) as [Heq | Hl | Hg]; try reflexivity.
        exfalso. apply Pos2Z.pos_lt_pos in Hg.
        exact (Z.lt_irrefl _ (Z.le_lt_trans _ _ _ Hm Hg)).
Qed.

End Magnitude.

(** X11. The value shown is never smaller in magnitude than the input.
    For a finite non-zero input, with an engine whose powers at this
    exponent are [1^s = 1] and otherwise not NaN with a clear sign bit,
    [|t| <= |E|] for [E = t * zeta(s)], the Number that is formatted. *)
Theorem calculate_magnitude
    (ap : float -> float -> float) (fuel : nat) (document : Document)
    (time output : Element) :
  document !! "time"%string = Some time ->
  document !! "output"%string = Some output ->
  (1000 <= fuel)%nat ->
  let t := Parse.parseFloat (value time) in
  let s := (1 + t * 1e-6)%float in
  is_finite_nonzero t = true ->
  Math_pow ap 1 s = 1%float ->
  (forall k, (2 <= k <= 999)%Z -> Num.is_nonneg (Math_pow ap (Num.of_Z k) s) = true) ->
  exists (realZeta E : float) (fixed : string),
    zeta ap fuel s = Normal realZeta
    /\ E = (t * realZeta)%float
    /\ Fmt.Number_toFixed E 6 = Normal fixed
    /\ displayed (calculate ap fuel document) = Some ("E(t) ≈ " ++ fixed)%string
    /\ (abs t <=? abs E)%float = true.
Proof.
  intros Ht Ho Hfuel t s Hnz H1 Hk.
  exists (series_summation ap s), (t * series_summation ap s)%float,
    (Fmt.fixed_string (t * series_summation ap s)%float 6).
  split; [apply zeta_normal, Hfuel|]. split; [reflexivity|].
  split; [apply Number_toFixed_6|].
  split; [apply (displayed_calculate ap fuel document time output Ht Ho Hfuel)|].
  rewrite leb_spec, !abs_spec, mul_spec.
  unfold is_finite_nonzero in Hnz.
  destruct (Prim2SF t) as [| | |st mt et] eqn:HPt; try discriminate.
  cbn [SFabs]. apply SFmul_ge1_magnitude.
  - rewrite <- HPt. apply Prim2SF_valid.
  - apply Prim2SF_valid.
  - apply series_summation_SF_ge1; assumption.
Qed.

Lemma calculate_magnitude_witness :
  exists (realZeta E : float) (fixed : string),
    zeta Engine.approximate_pow 1000 (1 + Parse.parseFloat "-5" * 1e-6)%float = Normal realZeta
    /\ E = (Parse.parseFloat "-5" * realZeta)%float
    /\ Fmt.Number_toFixed E 6 = Normal fixed
    /\ displayed (calculate Engine.approximate_pow 1000 (page "-5"))
       = Some ("E(t) ≈ " ++ fixed)%string
    /\ (abs (Parse.parseFloat "-5") <=? abs E)%float = true.
Proof.
  apply (calculate_magnitude Engine.approximate_pow 1000 (page "-5")
           {| value := "-5"; innerText := EmptyString |}
           {| value := EmptyString; innerText := EmptyString |}).
  - vm_compute. reflexivity.
  - vm_compute. reflexivity.
  - lia.
  - vm_compute. reflexivity.
  - vm_compute. reflexivity.
  - intros k Hk.
    apply (forallb_range
             (fun z => Num.is_nonneg
                         (Math_pow Engine.approximate_pow (Num.of_Z z)
                            (1 + Parse.parseFloat "-5" * 1e-6))));
      [vm_compute; reflexivity | lia].
Defined.

(** ** The display value and its six decimals *)



